(** * ColorGame: the level generator and the game state machine

    Shallow embedding of [src/components/ColorGame.tsx].

    Conventions of the embedding.
    - A JavaScript [number] that the code keeps integral (score, level,
      timeLeft, gridSize, diffIndex, timestamps, results of [Math.floor])
      is a [Z].
    - The level generator is embedded twice.  [generateLevel] computes with
      exact rationals [Q]; the state machine, the grid and the target index
      are stated over it.  [generateLevel64], [genColors64] and
      [Binary64.baseDelta64] compute with IEEE 754 binary64 doubles
      ([spec_float] at precision 53, round to nearest even), as the code
      does; what is said about the numbers themselves (the delta, the
      ranges of the colours, the clamp) is stated over them.
    - [Math.random()] is an input: the five draws one call of
      [generateLevel] makes, in program order, are the record [Draws]
      ([Draws64] for doubles).
    - [Date.now()] is an input of the operations that read it.
    - The React state of the component is the record [Session].  A handler
      is a closure of one render.  [startGame], [handleBlockClick] and
      [tick] take one session, the render and the queued state being the
      same; [handleBlockClickFrom] takes the two apart.
    - A colour string [hsl(h, s%, l%)] is the record [Hsl] ([Hsl64]) of the
      three numbers spliced into the template. *)

From Stdlib Require Import ZArith QArith Qround Qminmax Qabs List Lia Bool Lqa.
From Stdlib Require Import SpecFloat.
Import ListNotations.

Local Open Scope Z_scope.

(** ** Types *)

Record Hsl : Type := mkHsl {
  hue : Z;
  saturation : Z;
  lightness : Q
}.

(* interface ColorState *)
Record ColorState : Type := mkColorState {
  baseColor : Hsl;
  diffColor : Hsl;
  diffIndex : Z;
  delta : Q
}.

(* interface GameStats *)
Record GameStats : Type := mkGameStats {
  score : Z;
  startTime : Z;
  endTime : Z;
  level : Z
}.

(* 'start' | 'playing' | 'gameover' *)
Inductive Phase : Type := start | playing | gameover.

Definition Phase_eqb (a b : Phase) : bool :=
  match a, b with
  | start, start | playing, playing | gameover, gameover => true
  | _, _ => false
  end.

(* The five useState cells of the component. *)
Record Session : Type := mkSession {
  gameState : Phase;
  colorState : option ColorState;
  stats : GameStats;
  timeLeft : Z;
  gridSize : Z
}.

(* The values of the useState initialisers. *)
Definition initialSession : Session :=
  mkSession start None (mkGameStats 0 0 0 1) 45 5.

(* The results of the five Math.random() calls of generateLevel, in the
   order the code makes them. *)
Record Draws : Type := mkDraws {
  rHue : Q;
  rSaturation : Q;
  rLightness : Q;
  rLighter : Q;
  rIndex : Q
}.

(* Math.random() returns a number in [0, 1). *)
Definition unitDraw (r : Q) : Prop := (0 <= r)%Q /\ (r < 1)%Q.

Definition wfDraws (d : Draws) : Prop :=
  unitDraw (rHue d) /\ unitDraw (rSaturation d) /\ unitDraw (rLightness d) /\
  unitDraw (rLighter d) /\ unitDraw (rIndex d).

(** ** generateLevel *)

(* Math.max(1, 15 - level * 0.8) *)
Definition baseDelta (lvl : Z) : Q :=
  Qmax 1 (15 - inject_Z lvl * 0.8)%Q.

(* Math.min(9, Math.floor(5 + (level - 1) / 5)) *)
Definition newGridSize (lvl : Z) : Z :=
  Z.min 9 (Qfloor (5 + (inject_Z lvl - 1) / 5)%Q).

(* Math.floor(Math.random() * 360) *)
Definition genHue (r : Q) : Z := Qfloor (r * 360)%Q.

(* Math.floor(Math.random() * 40) + 60 *)
Definition genSaturation (r : Q) : Z := Qfloor (r * 40)%Q + 60.

(* Math.floor(Math.random() * 40) + 30 *)
Definition genLightness (r : Q) : Z := Qfloor (r * 40)%Q + 30.

(* Math.random() > 0.5 *)
Definition genIsLighter (r : Q) : bool := negb (Qle_bool r 0.5%Q).

(* isLighter ? baseDelta : -baseDelta *)
Definition lDiff (isLighter : bool) (bd : Q) : Q :=
  if isLighter then bd else (- bd)%Q.

(* Math.min(100, Math.max(0, lightness + lDiff)) *)
Definition clampLightness (l : Q) : Q := Qmin 100 (Qmax 0 l).

(* Math.floor(Math.random() * (gridSize * gridSize)), where gridSize is the
   state variable the closure captured, not newGridSize. *)
Definition genDiffIndex (capturedGridSize : Z) (r : Q) : Z :=
  Qfloor (r * inject_Z (capturedGridSize * capturedGridSize))%Q.

(* generateLevel(level): the first component is the argument of setGridSize,
   the second the argument of setColorState. *)
Definition generateLevel (capturedGridSize : Z) (lvl : Z) (d : Draws)
  : Z * ColorState :=
  let bd := baseDelta lvl in
  let g := newGridSize lvl in
  let h := genHue (rHue d) in
  let s := genSaturation (rSaturation d) in
  let l := genLightness (rLightness d) in
  let base := mkHsl h s (inject_Z l) in
  let isLighter := genIsLighter (rLighter d) in
  let ld := lDiff isLighter bd in
  let diff := mkHsl h s (clampLightness (inject_Z l + ld)%Q) in
  let idx := genDiffIndex capturedGridSize (rIndex d) in
  (g, mkColorState base diff idx bd).

(** ** The state machine *)

Definition setGameState (p : Phase) (st : Session) : Session :=
  mkSession p (colorState st) (stats st) (timeLeft st) (gridSize st).

Definition setColorState (c : option ColorState) (st : Session) : Session :=
  mkSession (gameState st) c (stats st) (timeLeft st) (gridSize st).

Definition setStats (f : GameStats -> GameStats) (st : Session) : Session :=
  mkSession (gameState st) (colorState st) (f (stats st)) (timeLeft st)
            (gridSize st).

Definition setTimeLeft (f : Z -> Z) (st : Session) : Session :=
  mkSession (gameState st) (colorState st) (stats st) (f (timeLeft st))
            (gridSize st).

Definition setGridSize (g : Z) (st : Session) : Session :=
  mkSession (gameState st) (colorState st) (stats st) (timeLeft st) g.

(* The two state writes of generateLevel.  [captured] is the gridSize of the
   render whose handler is running. *)
Definition runGenerateLevel (captured : Z) (lvl : Z) (d : Draws)
                            (st : Session) : Session :=
  let (g, cs) := generateLevel captured lvl d in
  setColorState (Some cs) (setGridSize g st).

(* const startGame = () => { ... } *)
Definition startGame (st : Session) (now : Z) (d : Draws) : Session :=
  let st1 := setStats (fun _ => mkGameStats 0 now 0 1) st in
  let st2 := setTimeLeft (fun _ => 45) st1 in
  let st3 := setGameState playing st2 in
  runGenerateLevel (gridSize st) 1 d st3.

(* const endGame = () => { ... } *)
Definition endGame (st : Session) (now : Z) : Session :=
  let st1 := setGameState gameover st in
  setStats (fun prev =>
              mkGameStats (score prev) (startTime prev) now (level prev)) st1.

(* One firing of the setInterval callback.  The effect installs the interval
   only when gameState is 'playing' and clears it when gameState changes, so
   outside 'playing' no callback runs. *)
Definition tick (st : Session) (now : Z) : Session :=
  if Phase_eqb (gameState st) playing then
    if timeLeft st <=? 1 then
      setTimeLeft (fun _ => 0) (endGame st now)
    else
      setTimeLeft (fun prev => prev - 1) st
  else st.

(* const handleBlockClick = (index: number) => { ... }
   The shake animation of the wrong branch touches the DOM only. *)
Definition handleBlockClick (st : Session) (index : Z) (d : Draws) : Session :=
  match gameState st, colorState st with
  | playing, Some cs =>
      if index =? diffIndex cs then
        let newLevel := level (stats st) + 1 in
        let st1 := setStats (fun prev =>
                     mkGameStats (score prev + 1) (startTime prev)
                                 (endTime prev) newLevel) st in
        let st2 := setTimeLeft (fun prev => Z.min 60 (prev + 1)) st1 in
        runGenerateLevel (gridSize st) newLevel d st2
      else
        setTimeLeft (fun prev => Z.max 0 (prev - 5)) st
  | _, _ => st
  end.

(** ** Rendering of the grid *)

(* backgroundColor: i === colorState.diffIndex ? diffColor : baseColor *)
Definition tileColor (cs : ColorState) (i : Z) : Hsl :=
  if i =? diffIndex cs then diffColor cs else baseColor cs.

(* Array.from({ length: gridSize * gridSize }).map((_, i) => ...), shown
   under gameState === 'playing' && colorState. *)
Definition renderGrid (st : Session) : list Hsl :=
  match gameState st, colorState st with
  | playing, Some cs =>
      map (fun i => tileColor cs (Z.of_nat i))
          (seq 0 (Z.to_nat (gridSize st * gridSize st)))
  | _, _ => []
  end.

(* Two colour strings are equal when the numbers spliced in are. *)
Definition Hsl_eqb (a b : Hsl) : bool :=
  (hue a =? hue b) && (saturation a =? saturation b) &&
  Qeq_bool (lightness a) (lightness b).

Definition countColor (c : Hsl) (tiles : list Hsl) : nat :=
  length (filter (Hsl_eqb c) tiles).

(** ** Events and runs *)

Inductive Event : Type :=
| StartGame (now : Z) (d : Draws)
| BlockClick (index : Z) (d : Draws)
| Tick (now : Z).

Definition step (st : Session) (e : Event) : Session :=
  match e with
  | StartGame now d => startGame st now d
  | BlockClick index d => handleBlockClick st index d
  | Tick now => tick st now
  end.

Definition run (st : Session) (es : list Event) : Session :=
  fold_left step es st.

Definition wfEvent (e : Event) : Prop :=
  match e with
  | StartGame _ d => wfDraws d
  | BlockClick _ d => wfDraws d
  | Tick _ => True
  end.

(* What the rendered page lets happen: the START CHALLENGE and TRY AGAIN
   buttons exist on the start and game-over screens, the tile buttons
   block-0 .. block-(gridSize*gridSize - 1) exist while playing with a
   ColorState, and the interval runs while playing. *)
Definition enabledb (st : Session) (e : Event) : bool :=
  match e with
  | StartGame _ _ => negb (Phase_eqb (gameState st) playing)
  | BlockClick index _ =>
      Phase_eqb (gameState st) playing &&
      match colorState st with Some _ => true | None => false end &&
      (0 <=? index) && (index <? gridSize st * gridSize st)
  | Tick _ => Phase_eqb (gameState st) playing
  end.

Fixpoint enabledAlong (st : Session) (es : list Event) : bool :=
  match es with
  | [] => true
  | e :: es' => enabledb st e && enabledAlong (step st e) es'
  end.

(* The sessions the component can be in. *)
Inductive reachable : Session -> Prop :=
| reachable_init : reachable initialSession
| reachable_step st e :
    reachable st -> enabledb st e = true -> wfEvent e ->
    reachable (step st e).

(** ** Concrete sessions used by the examples below *)

(* Every draw is 0: hue 0, saturation 60, lightness 30, darker, tile 0. *)
Definition drawsFirstTile : Draws := mkDraws 0 0 0 0 0.

(* As above, but the index draw is 0.99. *)
Definition drawsLateIndex : Draws := mkDraws 0 0 0 0 0.99.

(* A play-through: start, then five seconds with one correct pick each (the
   target is tile 0 every time), which reach level 6 and the 6x6 grid with
   45 seconds left, then 45 clock ticks, the last of which ends the game. *)
Definition playToGameOver : list Event :=
  StartGame 1000 drawsFirstTile ::
  concat (repeat [BlockClick 0 drawsFirstTile; Tick 2000] 5) ++
  repeat (Tick 9000) 45.

Definition sessionGameOver : Session := run initialSession playToGameOver.

(* TRY AGAIN on the game-over screen. *)
Definition sessionRestarted : Session :=
  startGame sessionGameOver 10000 drawsLateIndex.

(* A session in the middle of level 1 with three seconds left. *)
Definition sessionThreeSecondsLeft : Session :=
  setTimeLeft (fun _ => 3) (startGame initialSession 1000 drawsFirstTile).

(** ** Invariants of the session *)

Definition levelTracksScore (st : Session) : Prop :=
  level (stats st) = score (stats st) + 1.

(* The domains the fields stay in. *)
Definition sessionInDomain (st : Session) : Prop :=
  0 <= timeLeft st <= 60 /\
  1 <= level (stats st) /\
  5 <= gridSize st <= 9 /\
  (gameState st <> start -> colorState st <> None).

(** ** The difficulty curve in binary64

    [baseDelta] and the argument of [Math.floor] in [newGridSize], evaluated
    with the rounding of IEEE 754 binary64 (round to nearest, ties to even),
    to compare with the exact rationals used above. *)

Module Binary64.

Definition prec : Z := 53.
Definition emax : Z := 1024.

(* An integer-valued number. *)
Definition ofZ (z : Z) : spec_float := binary_normalize prec emax z 0 false.

(* The literal 0.8: the double 0x3FE999999999999A. *)
Definition lit_0_8 : spec_float :=
  S754_finite false 7205759403792794 (-53).

Definition add := SFadd prec emax.
Definition sub := SFsub prec emax.
Definition mul := SFmul prec emax.
Definition div := SFdiv prec emax.

(* Math.max(a, b) *)
Definition max (a b : spec_float) : spec_float :=
  match a, b with
  | S754_nan, _ | _, S754_nan => S754_nan
  | _, _ => if SFltb a b then b else a
  end.

(* Math.max(1, 15 - level * 0.8) *)
Definition baseDelta64 (lvl : Z) : spec_float :=
  max (ofZ 1) (sub (ofZ 15) (mul (ofZ lvl) lit_0_8)).

(* 5 + (level - 1) / 5 *)
Definition gridArg64 (lvl : Z) : spec_float :=
  add (ofZ 5) (div (sub (ofZ lvl) (ofZ 1)) (ofZ 5)).

(* The rational a finite double stands for. *)
Definition toQ (f : spec_float) : option Q :=
  match f with
  | S754_zero _ => Some 0%Q
  | S754_finite s m e =>
      let z := if s then Z.neg m else Z.pos m in
      Some (if 0 <=? e then inject_Z (z * 2 ^ e)
            else Qmake z (Pos.pow 2 (Z.to_pos (- e))))
  | _ => None
  end.

(* |f - q| <= 2^-48 *)
Definition close (f : spec_float) (q : Q) : bool :=
  match toQ f with
  | Some x => Qle_bool (Qabs (x - q)) (1 # (2 ^ 48))
  | None => false
  end.

(* Math.min(9, Math.floor(x)) of a finite double *)
Definition gridSize64 (lvl : Z) : option Z :=
  option_map (fun x => Z.min 9 (Qfloor x)) (toQ (gridArg64 lvl)).

Definition levelsUpTo (n : nat) : list Z := map Z.of_nat (seq 1 n).

End Binary64.

(** ** The rest of the render *)

(* The three conditional children that the render hands to AnimatePresence,
   by their keys. *)
Inductive Panel : Type := StartPanel | GridPanel | GameOverPanel.

(* gameState === 'start' && ..., gameState === 'playing' && colorState && ...,
   gameState === 'gameover' && ..., in the order of the markup: the children
   of AnimatePresence in the element tree that the render returns.  What
   AnimatePresence keeps mounted while an exit animation runs is its own
   business and is not modelled. *)
Definition presenceChildren (st : Session) : list Panel :=
  (if Phase_eqb (gameState st) start then [StartPanel] else []) ++
  (if Phase_eqb (gameState st) playing &&
      match colorState st with Some _ => true | None => false end
   then [GridPanel] else []) ++
  (if Phase_eqb (gameState st) gameover then [GameOverPanel] else []).

(* Whether the render returns the clock and score block of the header:
   gameState === 'playing' && (...) *)
Definition headerStatsElement (st : Session) : bool :=
  Phase_eqb (gameState st) playing.



(** ** Shapes of runs *)

Definition isStartGame (e : Event) : bool :=
  match e with StartGame _ _ => true | _ => false end.

Definition isTick (e : Event) : bool :=
  match e with Tick _ => true | _ => false end.

(* The events of one game: no press of a start button. *)
Definition withinGame (es : list Event) : bool :=
  forallb (fun e => negb (isStartGame e)) es.

Definition countTicks (es : list Event) : Z :=
  Z.of_nat (length (filter isTick es)).

(* A click aimed at a tile other than the target. *)
Definition missesTarget (cs : ColorState) (e : Event) : bool :=
  match e with
  | BlockClick index _ => negb (index =? diffIndex cs)
  | _ => false
  end.

(** ** Further invariants *)

(* The target is one of the rendered tiles. *)
Definition targetInGrid (st : Session) : Prop :=
  match colorState st with
  | Some cs => 0 <= diffIndex cs < gridSize st * gridSize st
  | None => True
  end.

(* The level, the grid and the colours belong together. *)
Definition levelInstalled (st : Session) : Prop :=
  gridSize st = newGridSize (level (stats st)) /\
  match colorState st with
  | Some cs =>
      delta cs = baseDelta (level (stats st)) /\
      Hsl_eqb (diffColor cs) (baseColor cs) = false /\
      0 <= diffIndex cs < 81
  | None => True
  end.


(** ** Checks of the binary64 evaluation against the exact one *)

(* The double computed for the delta of a level is within 2^-48 of the exact
   value, at least 1, and not below the double of the next level. *)
Definition delta64_ok (lvl : Z) : bool :=
  match Binary64.toQ (Binary64.baseDelta64 lvl),
        Binary64.toQ (Binary64.baseDelta64 (lvl + 1)) with
  | Some x, Some y =>
      Qle_bool (Qabs (x - baseDelta lvl)) (1 # (2 ^ 48)) &&
      Qle_bool 1 x && Qle_bool y x
  | _, _ => false
  end.

(* The grid size computed in doubles is the exact one. *)
Definition gridSize64_ok (lvl : Z) : bool :=
  match Binary64.gridSize64 lvl with
  | Some g => g =? newGridSize lvl
  | None => false
  end.

(** ** A click served by an older render

    A click handler is a closure of the render that created it: it reads
    gameState, colorState, stats.level and gridSize as that render saw them,
    while the updater functions handed to setStats and setTimeLeft receive
    the state queued so far.  When two clicks are served by one render the
    two sessions differ.  [handleBlockClick st] is the case
    [handleBlockClickFrom st st] of a render that shows the current state. *)

Definition handleBlockClickFrom (rendered st : Session)
                                (index : Z) (d : Draws) : Session :=
  match gameState rendered, colorState rendered with
  | playing, Some cs =>
      if index =? diffIndex cs then
        let newLevel := level (stats rendered) + 1 in
        let st1 := setStats (fun prev =>
                     mkGameStats (score prev + 1) (startTime prev)
                                 (endTime prev) newLevel) st in
        let st2 := setTimeLeft (fun prev => Z.min 60 (prev + 1)) st1 in
        runGenerateLevel (gridSize rendered) newLevel d st2
      else
        setTimeLeft (fun prev => Z.max 0 (prev - 5)) st
  | _, _ => st
  end.

(* The first level of a first game, as rendered: the target is tile 0. *)
Definition sessionFirstLevel : Session :=
  startGame initialSession 1000 drawsFirstTile.

(* One click on tile 0, served by that render. *)
Definition sessionOneClick : Session :=
  handleBlockClickFrom sessionFirstLevel sessionFirstLevel 0 drawsFirstTile.

(* A second click on tile 0 served by the same render, before the page has
   been rendered again. *)
Definition sessionTwoClicksOneRender : Session :=
  handleBlockClickFrom sessionFirstLevel sessionOneClick 0 drawsFirstTile.

(** ** Rounding to binary64 *)

(* After j right shifts of P the mantissa is P / 2^j, and a round bit that
   is set means that the part shifted out is at least half of 2^j. *)
Definition shifted (P : Z) (j : Z) (r : shr_record) : Prop :=
  shr_m r = P / 2 ^ j /\
  (shr_r r = true -> 2 ^ j <= 2 * (P mod 2 ^ j)).

(* The magnitude of m * 2^e: 2^(mag - 1) <= m * 2^e < 2^mag. *)
Definition mag (m : positive) (e : Z) : Z := Zpos (digits2_pos m) + e.

(* +infinity or a positive finite double of magnitude at least t. *)
Definition posAtLeast (t : Z) (f : spec_float) : Prop :=
  match f with
  | S754_infinity false => True
  | S754_finite false m e => t <= mag m e
  | _ => False
  end.

(* A double with the sign bit set, NaN apart. *)
Definition isNegative (f : spec_float) : Prop :=
  match f with
  | S754_zero true | S754_infinity true | S754_finite true _ _ => True
  | _ => False
  end.

(* The same double, bit for bit. *)
Definition sf_eqb (a b : spec_float) : bool :=
  match a, b with
  | S754_zero s, S754_zero s' => Bool.eqb s s'
  | S754_infinity s, S754_infinity s' => Bool.eqb s s'
  | S754_nan, S754_nan => true
  | S754_finite s m e, S754_finite s' m' e' =>
      Bool.eqb s s' && Pos.eqb m m' && Z.eqb e e'
  | _, _ => false
  end.

(** ** generateLevel in binary64

    Lines 37 to 48 with every number a double: the draws are doubles of
    [0, 1), the products and the sum are rounded, Math.floor gives an
    integer. *)

(* Math.floor of a double, as an integer; NaN and the infinities have
   none. *)
Definition floor64 (f : spec_float) : option Z :=
  match f with
  | S754_zero _ => Some 0
  | S754_finite s m e =>
      let z := if s then Zneg m else Zpos m in
      Some (if 0 <=? e then z * 2 ^ e else z / 2 ^ (- e))
  | _ => None
  end.

(* A result of Math.random(): +0 or a positive double below 1. *)
Definition unitDraw64b (r : spec_float) : bool :=
  match r with
  | S754_zero false => true
  | S754_finite false m e =>
      valid_binary 53 1024 r && (e <? 0) && (Zpos m <? 2 ^ (- e))
  | _ => false
  end.

(* The largest double below 1: 0x3FEFFFFFFFFFFFFF = 1 - 2^-53. *)
Definition maxDraw64 : spec_float :=
  S754_finite false 9007199254740991 (-53).

(* The literal 0.5. *)
Definition lit_0_5 : spec_float := S754_finite false 4503599627370496 (-53).

Record Draws64 : Type := mkDraws64 {
  rHue64 : spec_float;
  rSaturation64 : spec_float;
  rLightness64 : spec_float;
  rLighter64 : spec_float;
  rIndex64 : spec_float
}.

Definition wfDraws64 (d : Draws64) : bool :=
  unitDraw64b (rHue64 d) && unitDraw64b (rSaturation64 d) &&
  unitDraw64b (rLightness64 d) && unitDraw64b (rLighter64 d) &&
  unitDraw64b (rIndex64 d).

(* hsl(h, s%, l%) with l a double. *)
Record Hsl64 : Type := mkHsl64 {
  hue64 : Z;
  saturation64 : Z;
  lightness64 : spec_float
}.

Record ColorState64 : Type := mkColorState64 {
  baseColor64 : Hsl64;
  diffColor64 : Hsl64;
  diffIndex64 : Z;
  delta64 : spec_float
}.

(* Math.min(a, b) *)
Definition min64 (a b : spec_float) : spec_float :=
  match a, b with
  | S754_nan, _ | _, S754_nan => S754_nan
  | _, _ => if SFltb b a then b else a
  end.

(* Math.floor(Math.random() * 360) *)
Definition genHue64 (r : spec_float) : option Z :=
  floor64 (Binary64.mul r (Binary64.ofZ 360)).

(* Math.floor(Math.random() * 40) + 60 *)
Definition genSaturation64 (r : spec_float) : option Z :=
  option_map (fun v => v + 60) (floor64 (Binary64.mul r (Binary64.ofZ 40))).

(* Math.floor(Math.random() * 40) + 30 *)
Definition genLightness64 (r : spec_float) : option Z :=
  option_map (fun v => v + 30) (floor64 (Binary64.mul r (Binary64.ofZ 40))).

(* Math.random() > 0.5 *)
Definition genIsLighter64 (r : spec_float) : bool := SFltb lit_0_5 r.

(* isLighter ? baseDelta : -baseDelta *)
Definition lDiff64 (isLighter : bool) (bd : spec_float) : spec_float :=
  if isLighter then bd else SFopp bd.

(* lightness + lDiff, for the integer lightness l of the base colour *)
Definition targetLightness64 (lvl l : Z) (isLighter : bool) : spec_float :=
  Binary64.add (Binary64.ofZ l)
               (lDiff64 isLighter (Binary64.baseDelta64 lvl)).

(* Math.min(100, Math.max(0, x)) *)
Definition clampLightness64 (x : spec_float) : spec_float :=
  min64 (Binary64.ofZ 100) (Binary64.max (Binary64.ofZ 0) x).

(* Math.floor(Math.random() * (gridSize * gridSize)) *)
Definition genDiffIndex64 (capturedGridSize : Z) (r : spec_float)
  : option Z :=
  floor64 (Binary64.mul r (Binary64.ofZ (capturedGridSize * capturedGridSize))).

(* Lines 37 to 46: the two colours. *)
Definition genColors64 (lvl : Z) (d : Draws64) : option (Hsl64 * Hsl64) :=
  match genHue64 (rHue64 d), genSaturation64 (rSaturation64 d),
        genLightness64 (rLightness64 d) with
  | Some h, Some s, Some l =>
      Some (mkHsl64 h s (Binary64.ofZ l),
            mkHsl64 h s
              (clampLightness64
                 (targetLightness64 lvl l (genIsLighter64 (rLighter64 d)))))
  | _, _, _ => None
  end.

(* generateLevel(level) *)
Definition generateLevel64 (capturedGridSize : Z) (lvl : Z) (d : Draws64)
  : option (Z * ColorState64) :=
  match Binary64.gridSize64 lvl, genColors64 lvl d,
        genDiffIndex64 capturedGridSize (rIndex64 d) with
  | Some g, Some (base, diff), Some idx =>
      Some (g, mkColorState64 base diff idx (Binary64.baseDelta64 lvl))
  | _, _, _ => None
  end.

(** ** Checks by evaluation *)

Definition lightnessValues : list Z := map Z.of_nat (seq 30 40).

(* At level lvl and base lightness l the clamp returns its argument, which
   is above 15, below 84 and within [0, 100]. *)
Definition clampInactive64 (lvl l : Z) (isLighter : bool) : bool :=
  let x := targetLightness64 lvl l isLighter in
  sf_eqb (clampLightness64 x) x &&
  SFltb (Binary64.ofZ 15) x && SFltb x (Binary64.ofZ 84) &&
  SFleb (Binary64.ofZ 0) x && SFleb x (Binary64.ofZ 100).

Definition clampInactive64_level (lvl : Z) : bool :=
  forallb (fun l => clampInactive64 lvl l true && clampInactive64 lvl l false)
          lightnessValues.

(* A draw in the middle of the i-th of n equal parts of [0, 1). *)
Definition midDraw64 (i n : Z) : spec_float :=
  Binary64.div (Binary64.ofZ (2 * i + 1)) (Binary64.ofZ (2 * n)).

(** * Properties *)

(** ** Arithmetic of [Math.floor] on rationals *)

Lemma Qfloor_spec (x : Q) (v : Z) :
  Qfloor x = v <-> (inject_Z v <= x /\ x < inject_Z (v + 1))%Q.
Proof.
  split.
  - intros <-. split; [apply Qfloor_le | apply Qlt_floor].
  - intros [Hlo Hhi].
    pose proof (Qfloor_le x) as Hle.
    pose proof (Qlt_floor x) as Hlt.
    assert (H1 : (inject_Z v < inject_Z (Qfloor x + 1))%Q)
      by (eapply Qle_lt_trans; eassumption).
    assert (H2 : (inject_Z (Qfloor x) < inject_Z (v + 1))%Q)
      by (eapply Qle_lt_trans; eassumption).
    rewrite <- Zlt_Qlt in H1, H2. lia.
Qed.

Lemma inject_Z_pos (n : Z) : 0 < n -> (0 < inject_Z n)%Q.
Proof. intros Hn. rewrite (Zlt_Qlt 0 n) in Hn. exact Hn. Qed.

Lemma Qfloor_scale_range (r : Q) (n : Z) :
  0 < n -> unitDraw r -> 0 <= Qfloor (r * inject_Z n) < n.
Proof.
  intros Hn [H0 H1].
  pose proof (inject_Z_pos n Hn) as Hq.
  split.
  - change 0 with (Qfloor 0). apply Qfloor_resp_le.
    apply Qmult_le_0_compat; [exact H0 | apply Qlt_le_weak; exact Hq].
  - rewrite Zlt_Qlt.
    eapply Qle_lt_trans; [apply Qfloor_le|].
    setoid_replace (inject_Z n) with (1 * inject_Z n)%Q at 2 by ring.
    apply Qmult_lt_compat_r; assumption.
Qed.

Lemma Qfloor_scale_preimage (r : Q) (n v : Z) :
  0 < n ->
  Qfloor (r * inject_Z n) = v <->
  (inject_Z v / inject_Z n <= r /\ r < inject_Z (v + 1) / inject_Z n)%Q.
Proof.
  intros Hn.
  pose proof (inject_Z_pos n Hn) as Hq.
  assert (Hne : ~ (inject_Z n == 0)%Q)
    by (intros E; rewrite E in Hq; discriminate).
  rewrite Qfloor_spec. split; intros [Hlo Hhi]; split.
  - apply Qle_shift_div_r; assumption.
  - apply Qlt_shift_div_l; assumption.
  - apply (Qmult_le_compat_r _ _ (inject_Z n)) in Hlo;
      [| apply Qlt_le_weak; exact Hq].
    unfold Qdiv in Hlo. rewrite <- Qmult_assoc, (Qmult_comm (/ _)),
      Qmult_inv_r, Qmult_1_r in Hlo by exact Hne. exact Hlo.
  - apply (Qmult_lt_compat_r _ _ (inject_Z n)) in Hhi; [| exact Hq].
    unfold Qdiv in Hhi. rewrite <- Qmult_assoc, (Qmult_comm (/ _)),
      Qmult_inv_r, Qmult_1_r in Hhi by exact Hne. exact Hhi.
Qed.

(* Every value below n is hit by some draw. *)
Lemma Qfloor_scale_onto (n v : Z) :
  0 <= v < n ->
  unitDraw (inject_Z v / inject_Z n) /\
  Qfloor (inject_Z v / inject_Z n * inject_Z n) = v.
Proof.
  intros [Hv Hn].
  assert (Hn0 : 0 < n) by lia.
  pose proof (inject_Z_pos n Hn0) as Hq.
  split.
  - split.
    + apply Qle_shift_div_l; [exact Hq|].
      rewrite Qmult_0_l. rewrite Zle_Qle in Hv. exact Hv.
    + apply Qlt_shift_div_r; [exact Hq|].
      rewrite Qmult_1_l. rewrite Zlt_Qlt in Hn. exact Hn.
  - apply Qfloor_scale_preimage; [exact Hn0|]. split.
    + apply Qle_refl.
    + apply Qlt_shift_div_l; [exact Hq|].
      unfold Qdiv. rewrite <- Qmult_assoc, (Qmult_comm (/ _)), Qmult_inv_r,
        Qmult_1_r by (intros E; rewrite E in Hq; discriminate).
      rewrite <- Zlt_Qlt. lia.
Qed.

(** ** The difficulty curve *)

Lemma newGridSize_div (lvl : Z) :
  newGridSize lvl = Z.min 9 (5 + (lvl - 1) / 5).
Proof.
  unfold newGridSize. f_equal.
  assert (E : (5 + (inject_Z lvl - 1) / 5 ==
               inject_Z (lvl + 24) / inject_Z 5)%Q).
  { rewrite inject_Z_plus. change (inject_Z 24) with 24%Q.
    change (inject_Z 5) with 5%Q. field. }
  rewrite E, <- Zdiv_Qdiv.
  replace (lvl + 24) with (lvl - 1 + 5 * 5) by lia.
  rewrite Z.div_add by lia. lia.
Qed.

Lemma newGridSize_mono (a b : Z) : a <= b -> newGridSize a <= newGridSize b.
Proof.
  intros Hab. rewrite !newGridSize_div.
  pose proof (Z.div_le_mono (a - 1) (b - 1) 5 ltac:(lia) ltac:(lia)). lia.
Qed.

Lemma newGridSize_range (lvl : Z) : 1 <= lvl -> 5 <= newGridSize lvl <= 9.
Proof.
  intros H. rewrite newGridSize_div.
  pose proof (Z.div_pos (lvl - 1) 5 ltac:(lia) ltac:(lia)). lia.
Qed.

Lemma baseDelta_ge_1 (lvl : Z) : (1 <= baseDelta lvl)%Q.
Proof. unfold baseDelta. apply Q.le_max_l. Qed.

Lemma baseDelta_antitone (a b : Z) :
  a <= b -> (baseDelta b <= baseDelta a)%Q.
Proof.
  intros Hab. unfold baseDelta. apply Q.max_le_compat_l.
  rewrite Zle_Qle in Hab. lra.
Qed.

Lemma baseDelta_linear (lvl : Z) :
  lvl <= 17 -> (baseDelta lvl == 15 - inject_Z lvl * 0.8)%Q.
Proof.
  intros H. unfold baseDelta. apply Q.max_r.
  rewrite Zle_Qle in H. change (inject_Z 17) with 17%Q in H. lra.
Qed.


(** ** Agreement with binary64 on the first 500 levels *)

Example lit_0_8_rounds_8_div_10 :
  Binary64.div (Binary64.ofZ 8) (Binary64.ofZ 10) = Binary64.lit_0_8.
Proof. reflexivity. Qed.

Lemma baseDelta64_agrees :
  forallb (fun l =>
             Binary64.close (Binary64.baseDelta64 l) (baseDelta l) &&
             SFleb (Binary64.ofZ 1) (Binary64.baseDelta64 l) &&
             SFleb (Binary64.baseDelta64 (l + 1)) (Binary64.baseDelta64 l))
          (Binary64.levelsUpTo 500) = true.
Proof. vm_compute. reflexivity. Qed.

Lemma gridSize64_agrees :
  forallb (fun l =>
             match Binary64.gridSize64 l with
             | Some g => g =? newGridSize l
             | None => false
             end)
          (Binary64.levelsUpTo 500) = true.
Proof. vm_compute. reflexivity. Qed.

(** ** Grid size and delta of a generated level *)

Example newGridSize_table :
  map newGridSize [1; 5; 6; 10; 11; 16; 20; 21; 25; 26; 100]
  = [5; 5; 6; 6; 7; 8; 8; 9; 9; 9; 9].
Proof. reflexivity. Qed.

(** C7: for every level L >= 1 the grid size that generateLevel(L) hands to
    setGridSize is min(9, floor(5 + (L-1)/5)); it is 5 at level 1, one more
    after every five levels, capped at 9, and non-decreasing in L. *)
Theorem generateLevel_gridSize (g L : Z) (d : Draws) :
  1 <= L ->
  let size := fun l => fst (generateLevel g l d) in
  size L = Z.min 9 (Qfloor (5 + (inject_Z L - 1) / 5)%Q) /\
  size L = Z.min 9 (5 + (L - 1) / 5) /\
  size 1 = 5 /\
  size (L + 5) = Z.min 9 (size L + 1) /\
  5 <= size L <= 9 /\
  (forall L', L <= L' -> size L <= size L').
Proof.
  intros HL size. subst size. cbn [generateLevel fst].
  repeat split.
  - apply newGridSize_div.
  - rewrite !newGridSize_div.
    replace (L + 5 - 1) with (L - 1 + 1 * 5) by lia.
    rewrite Z.div_add by lia. lia.
  - apply newGridSize_range; exact HL.
  - apply newGridSize_range; exact HL.
  - intros L' HL'. apply newGridSize_mono; exact HL'.
Qed.

Lemma generateLevel_gridSize_witness :
  1 <= 12 /\
  fst (generateLevel 5 12 drawsFirstTile) = Z.min 9 (5 + (12 - 1) / 5).
Proof.
  split; [lia|].
  apply (generateLevel_gridSize 5 12 drawsFirstTile). lia.
Defined.

(** ** The colours of a level *)

Lemma genHue_range r : unitDraw r -> 0 <= genHue r < 360.
Proof. intros H. apply (Qfloor_scale_range r 360); [lia | exact H]. Qed.

Lemma genSaturation_range r : unitDraw r -> 60 <= genSaturation r < 100.
Proof.
  intros H. unfold genSaturation.
  pose proof (Qfloor_scale_range r 40 ltac:(lia) H) as Hr.
  change (inject_Z 40) with 40%Q in Hr. lia.
Qed.

Lemma genLightness_range r : unitDraw r -> 30 <= genLightness r < 70.
Proof.
  intros H. unfold genLightness.
  pose proof (Qfloor_scale_range r 40 ltac:(lia) H) as Hr.
  change (inject_Z 40) with 40%Q in Hr. lia.
Qed.

Lemma genHue_preimage r v :
  genHue r = v <-> (inject_Z v / 360 <= r /\ r < inject_Z (v + 1) / 360)%Q.
Proof. apply (Qfloor_scale_preimage r 360 v). lia. Qed.

Lemma genSaturation_preimage r v :
  genSaturation r = v <->
  (inject_Z (v - 60) / 40 <= r /\ r < inject_Z (v - 60 + 1) / 40)%Q.
Proof.
  unfold genSaturation.
  rewrite <- (Qfloor_scale_preimage r 40 (v - 60)) by lia.
  change (inject_Z 40) with 40%Q. lia.
Qed.

Lemma genLightness_preimage r v :
  genLightness r = v <->
  (inject_Z (v - 30) / 40 <= r /\ r < inject_Z (v - 30 + 1) / 40)%Q.
Proof.
  unfold genLightness.
  rewrite <- (Qfloor_scale_preimage r 40 (v - 30)) by lia.
  change (inject_Z 40) with 40%Q. lia.
Qed.

(* Each value of the three ranges is produced by some draw. *)
Lemma genHue_onto v :
  0 <= v < 360 -> exists r, unitDraw r /\ genHue r = v.
Proof.
  intros Hv. exists (inject_Z v / inject_Z 360)%Q.
  apply (Qfloor_scale_onto 360 v Hv).
Qed.

Lemma genSaturation_onto v :
  60 <= v < 100 -> exists r, unitDraw r /\ genSaturation r = v.
Proof.
  intros Hv. exists (inject_Z (v - 60) / inject_Z 40)%Q.
  destruct (Qfloor_scale_onto 40 (v - 60) ltac:(lia)) as [Hr E].
  split; [exact Hr|]. unfold genSaturation.
  change 40%Q with (inject_Z 40). rewrite E. lia.
Qed.

Lemma genLightness_onto v :
  30 <= v < 70 -> exists r, unitDraw r /\ genLightness r = v.
Proof.
  intros Hv. exists (inject_Z (v - 30) / inject_Z 40)%Q.
  destruct (Qfloor_scale_onto 40 (v - 30) ltac:(lia)) as [Hr E].
  split; [exact Hr|]. unfold genLightness.
  change 40%Q with (inject_Z 40). rewrite E. lia.
Qed.

Lemma genIsLighter_true r : genIsLighter r = true <-> (0.5 < r)%Q.
Proof.
  unfold genIsLighter. rewrite negb_true_iff.
  split.
  - intros H. apply Qnot_le_lt. intros Hle.
    apply Qle_bool_iff in Hle. congruence.
  - intros H. destruct (Qle_bool r 0.5) eqn:E; [|reflexivity].
    apply Qle_bool_iff in E. exfalso. apply (Qlt_not_le _ _ H E).
Qed.

Lemma clampLightness_range l : (0 <= clampLightness l <= 100)%Q.
Proof.
  unfold clampLightness. split.
  - apply Q.min_glb; [discriminate | apply Q.le_max_l].
  - apply Q.le_min_l.
Qed.

Lemma wfDraws_drawsFirstTile : wfDraws drawsFirstTile.
Proof. unfold wfDraws, unitDraw, Qle, Qlt; cbn. repeat split; lia. Qed.

Lemma wfDraws_drawsLateIndex : wfDraws drawsLateIndex.
Proof. unfold wfDraws, unitDraw, Qle, Qlt; cbn. repeat split; lia. Qed.

(** ** The target index *)

Lemma generateLevel_ignores_captured_elsewhere (g g' L : Z) (d : Draws) :
  fst (generateLevel g L d) = fst (generateLevel g' L d) /\
  baseColor (snd (generateLevel g L d)) =
    baseColor (snd (generateLevel g' L d)) /\
  diffColor (snd (generateLevel g L d)) =
    diffColor (snd (generateLevel g' L d)) /\
  delta (snd (generateLevel g L d)) = delta (snd (generateLevel g' L d)).
Proof. repeat split. Qed.

Lemma genDiffIndex_range g r :
  0 < g -> unitDraw r -> 0 <= genDiffIndex g r < g * g.
Proof.
  intros Hg Hr. unfold genDiffIndex.
  apply Qfloor_scale_range; [nia | exact Hr].
Qed.

Lemma genDiffIndex_onto g v :
  0 <= v < g * g -> exists r, unitDraw r /\ genDiffIndex g r = v.
Proof.
  intros Hv. exists (inject_Z v / inject_Z (g * g))%Q.
  apply Qfloor_scale_onto; exact Hv.
Qed.

(* Moving from level 5 to level 6 the grid becomes 6x6 while the index is
   still drawn for the 5x5 grid of the render that handled the click. *)
Lemma level6_index_drawn_for_5x5 d :
  wfDraws d ->
  fst (generateLevel 5 6 d) = 6 /\
  0 <= diffIndex (snd (generateLevel 5 6 d)) < 25.
Proof.
  intros (_ & _ & _ & _ & Hi). split; [reflexivity|].
  apply (genDiffIndex_range 5); [lia | exact Hi].
Qed.

Lemma Hsl_eqb_refl c : Hsl_eqb c c = true.
Proof.
  unfold Hsl_eqb. rewrite !Z.eqb_refl. cbn.
  apply Qeq_eq_bool. reflexivity.
Qed.

Lemma clampLightness_shifted (l : Z) (bd : Q) (lighter : bool) :
  30 <= l < 70 -> (1 <= bd)%Q ->
  ~ (clampLightness (inject_Z l + lDiff lighter bd) == inject_Z l)%Q.
Proof.
  intros [Hlo Hhi] Hbd.
  rewrite Zle_Qle in Hlo. rewrite Zlt_Qlt in Hhi.
  change (inject_Z 30) with 30%Q in Hlo. change (inject_Z 70) with 70%Q in Hhi.
  unfold clampLightness.
  set (x := (inject_Z l + lDiff lighter bd)%Q).
  assert (Hx : (inject_Z l + 1 <= x \/ x <= inject_Z l - 1)%Q).
  { subst x. destruct lighter; cbn [lDiff]; [left | right]; lra. }
  destruct (Q.max_spec 0 x) as [[_ Ea] | [_ Ea]];
    destruct (Q.min_spec 100 (Qmax 0 x)) as [[Hb Eb] | [Hb Eb]];
    rewrite Eb; try rewrite Ea; try rewrite Ea in Hb; lra.
Qed.

Lemma generateLevel_colors_differ g L d :
  wfDraws d ->
  let cs := snd (generateLevel g L d) in
  Hsl_eqb (diffColor cs) (baseColor cs) = false.
Proof.
  intros (_ & _ & Hl & _) cs. subst cs.
  cbn [generateLevel snd diffColor baseColor]. unfold Hsl_eqb.
  cbn [hue saturation lightness]. rewrite !Z.eqb_refl. cbn [andb].
  destruct (Qeq_bool _ _) eqn:E; [|reflexivity].
  apply Qeq_bool_eq in E. exfalso.
  revert E. apply clampLightness_shifted.
  - apply genLightness_range; exact Hl.
  - apply baseDelta_ge_1.
Qed.

Lemma countColor_tiles (cs : ColorState) (len : nat) : forall s : nat,
  Hsl_eqb (diffColor cs) (baseColor cs) = false ->
  countColor (diffColor cs)
             (map (fun i => tileColor cs (Z.of_nat i)) (seq s len)) =
  if (Z.of_nat s <=? diffIndex cs) && (diffIndex cs <? Z.of_nat (s + len))
  then 1%nat else 0%nat.
Proof.
  unfold countColor.
  induction len as [|len IH]; intros s Hne.
  - cbn. destruct (Z.leb_spec (Z.of_nat s) (diffIndex cs));
      destruct (Z.ltb_spec (diffIndex cs) (Z.of_nat (s + 0))); cbn; try reflexivity.
    lia.
  - cbn [seq map filter]. unfold tileColor at 1.
    destruct (Z.eqb_spec (Z.of_nat s) (diffIndex cs)) as [E | E].
    + rewrite Hsl_eqb_refl. cbn [length]. rewrite (IH (S s) Hne).
      destruct (Z.leb_spec (Z.of_nat (S s)) (diffIndex cs)); [lia|].
      cbn [andb].
      destruct (Z.leb_spec (Z.of_nat s) (diffIndex cs)); [|lia].
      destruct (Z.ltb_spec (diffIndex cs) (Z.of_nat (s + S len))); [|lia].
      reflexivity.
    + rewrite Hne. rewrite (IH (S s) Hne).
      replace (S s + len)%nat with (s + S len)%nat by lia.
      destruct (Z.leb_spec (Z.of_nat (S s)) (diffIndex cs));
        destruct (Z.leb_spec (Z.of_nat s) (diffIndex cs));
        destruct (Z.ltb_spec (diffIndex cs) (Z.of_nat (s + S len)));
        cbn [andb]; try reflexivity; lia.
Qed.

(* What the grid shows when the index was drawn for the grid size that is
   rendered, as on every level that does not change the grid size. *)
Lemma renderGrid_one_target (st : Session) (g L : Z) (d : Draws) :
  wfDraws d -> 0 < g ->
  gameState st = playing ->
  gridSize st = g ->
  colorState st = Some (snd (generateLevel g L d)) ->
  let cs := snd (generateLevel g L d) in
  0 <= diffIndex cs < g * g /\
  countColor (diffColor cs) (renderGrid st) = 1%nat /\
  (forall i, 0 <= i < g * g -> i <> diffIndex cs ->
             tileColor cs i = baseColor cs) /\
  tileColor cs (diffIndex cs) = diffColor cs.
Proof.
  intros Hd Hg Hp Hgs Hcs cs.
  assert (Hr : 0 <= diffIndex cs < g * g).
  { subst cs. cbn [generateLevel snd diffIndex].
    apply genDiffIndex_range; [exact Hg | apply Hd]. }
  split; [exact Hr|]. split; [|split].
  - unfold renderGrid. rewrite Hp, Hcs, Hgs. fold cs.
    rewrite countColor_tiles
      by (apply generateLevel_colors_differ; exact Hd).
    cbn [Z.of_nat Nat.add]. rewrite Z2Nat.id by nia.
    destruct (Z.leb_spec 0 (diffIndex cs)); [|lia].
    destruct (Z.ltb_spec (diffIndex cs) (g * g)); [|lia].
    reflexivity.
  - intros i _ Hi. unfold tileColor.
    destruct (Z.eqb_spec i (diffIndex cs)); [contradiction | reflexivity].
  - unfold tileColor. rewrite Z.eqb_refl. reflexivity.
Qed.

Lemma reachable_run es : forall st,
  reachable st -> enabledAlong st es = true -> Forall wfEvent es ->
  reachable (run st es).
Proof.
  induction es as [|e es IH]; intros st Hst Hen Hes; cbn.
  - exact Hst.
  - cbn in Hen. apply andb_true_iff in Hen. destruct Hen as [He Hen].
    inversion Hes; subst. apply IH; [|assumption|assumption].
    apply reachable_step; assumption.
Qed.

Lemma wfEvent_playToGameOver : Forall wfEvent playToGameOver.
Proof.
  unfold playToGameOver. cbn [repeat concat app].
  repeat (apply Forall_cons;
          [first [exact I | exact wfDraws_drawsFirstTile]|]).
  apply Forall_nil.
Qed.

Lemma reachable_sessionGameOver : reachable sessionGameOver.
Proof.
  apply reachable_run.
  - apply reachable_init.
  - vm_compute. reflexivity.
  - apply wfEvent_playToGameOver.
Qed.

Lemma reachable_sessionRestarted : reachable sessionRestarted.
Proof.
  apply (reachable_step sessionGameOver (StartGame 10000 drawsLateIndex)).
  - apply reachable_sessionGameOver.
  - vm_compute. reflexivity.
  - apply wfDraws_drawsLateIndex.
Qed.

(** C1, at a failing input: after a game that reached the 6x6 grid, TRY AGAIN
    with an index draw of 0.99 installs a 5x5 grid and the target index 35,
    which is outside [0, 25): the 25 tiles all show the base colour and none
    shows the target colour. *)
Theorem restart_target_outside_grid :
  reachable sessionRestarted /\
  gameState sessionRestarted = playing /\
  gridSize sessionRestarted = 5 /\
  length (renderGrid sessionRestarted) = 25%nat /\
  exists cs,
    colorState sessionRestarted = Some cs /\
    diffIndex cs = 35 /\
    ~ (0 <= diffIndex cs < gridSize sessionRestarted * gridSize sessionRestarted) /\
    countColor (diffColor cs) (renderGrid sessionRestarted) = 0%nat /\
    countColor (baseColor cs) (renderGrid sessionRestarted) = 25%nat.
Proof.
  split; [apply reachable_sessionRestarted|].
  split; [reflexivity|].
  split; [reflexivity|].
  split; [reflexivity|].
  eexists. split; [reflexivity|].
  split; [reflexivity|].
  split; [vm_compute; intros [_ H]; discriminate H|].
  split; reflexivity.
Qed.


(** C2, at a failing input: level 1 with the same five draws gives target
    index 24 from the initial session (captured gridSize 5) and 35 from the
    game-over session (captured gridSize 6), so the installed ColorState
    depends on the session generateLevel is called from. *)
Theorem generateLevel_reads_captured_gridSize :
  reachable initialSession /\
  reachable sessionGameOver /\
  gridSize initialSession = 5 /\
  gridSize sessionGameOver = 6 /\
  diffIndex (snd (generateLevel (gridSize initialSession) 1 drawsLateIndex))
    = 24 /\
  diffIndex (snd (generateLevel (gridSize sessionGameOver) 1 drawsLateIndex))
    = 35 /\
  colorState (startGame initialSession 10000 drawsLateIndex) <>
  colorState (startGame sessionGameOver 10000 drawsLateIndex).
Proof.
  split; [apply reachable_init|].
  split; [apply reachable_sessionGameOver|].
  repeat (split; [reflexivity|]).
  intros H. apply (f_equal (option_map diffIndex)) in H.
  vm_compute in H. discriminate H.
Qed.

(** ** The input handler and the clock *)

Example startGame_scenario :
  let st := startGame initialSession 1000 drawsFirstTile in
  (score (stats st), level (stats st), timeLeft st, gameState st, gridSize st)
  = (0, 1, 45, playing, 5).
Proof. reflexivity. Qed.

(** C5: a click on a non-target index while playing sets timeLeft to
    max(0, timeLeft - 5) and leaves score, level, phase and the current
    ColorState as they were; a penalty that brings timeLeft to 0 leaves the
    phase at playing. *)
Theorem handleBlockClick_wrong
        (st : Session) (cs : ColorState) (index : Z) (d : Draws) :
  gameState st = playing ->
  colorState st = Some cs ->
  index <> diffIndex cs ->
  let st' := handleBlockClick st index d in
  timeLeft st' = Z.max 0 (timeLeft st - 5) /\
  stats st' = stats st /\
  gameState st' = playing /\
  colorState st' = Some cs /\
  gridSize st' = gridSize st /\
  (timeLeft st <= 5 -> timeLeft st' = 0 /\ gameState st' = playing).
Proof.
  intros Hp Hc Hi st'. subst st'.
  unfold handleBlockClick. rewrite Hp, Hc.
  apply Z.eqb_neq in Hi. rewrite Hi. cbn. rewrite Hp, Hc.
  repeat split. lia.
Qed.

Lemma handleBlockClick_wrong_witness :
  let st' := handleBlockClick sessionThreeSecondsLeft 1 drawsFirstTile in
  timeLeft st' = 0 /\ gameState st' = playing.
Proof.
  pose proof (handleBlockClick_wrong sessionThreeSecondsLeft
                (snd (generateLevel 5 1 drawsFirstTile)) 1 drawsFirstTile
                eq_refl eq_refl ltac:(discriminate)) as H.
  cbv zeta in H. destruct H as (_ & _ & _ & _ & _ & H).
  apply H. vm_compute. discriminate.
Defined.

(** C6: a clock tick while playing sets timeLeft to 0 and moves to gameover
    through endGame (which records endTime) when timeLeft <= 1; otherwise
    it takes exactly 1 off timeLeft and leaves the phase at playing. *)
Theorem tick_playing (st : Session) (now : Z) :
  gameState st = playing ->
  let st' := tick st now in
  (timeLeft st <= 1 ->
     timeLeft st' = 0 /\ gameState st' = gameover /\
     endTime (stats st') = now /\
     st' = setTimeLeft (fun _ => 0) (endGame st now)) /\
  (1 < timeLeft st ->
     timeLeft st' = timeLeft st - 1 /\ gameState st' = playing /\
     stats st' = stats st /\ colorState st' = colorState st /\
     gridSize st' = gridSize st).
Proof.
  intros Hp st'. subst st'. unfold tick. rewrite Hp. cbn [Phase_eqb].
  split; intros Ht.
  - apply Z.leb_le in Ht. rewrite Ht. cbn. repeat split.
  - apply Z.leb_gt in Ht. rewrite Ht. cbn. rewrite Hp. repeat split.
Qed.

Lemma tick_playing_witness :
  let st := setTimeLeft (fun _ => 1) sessionThreeSecondsLeft in
  (gameState (tick st 5000) = gameover /\ timeLeft (tick st 5000) = 0) /\
  (timeLeft (tick sessionThreeSecondsLeft 5000) = 2 /\
   gameState (tick sessionThreeSecondsLeft 5000) = playing).
Proof.
  cbv zeta. split.
  - destruct (tick_playing (setTimeLeft (fun _ => 1) sessionThreeSecondsLeft)
                5000 eq_refl) as [H _].
    destruct (H ltac:(vm_compute; discriminate)) as (Ht & Hp & _).
    split; assumption.
  - destruct (tick_playing sessionThreeSecondsLeft 5000 eq_refl) as [_ H].
    destruct (H ltac:(vm_compute; reflexivity)) as (Ht & Hp & _).
    split; assumption.
Defined.

(** C9: handleBlockClick and a clock tick leave the whole session as it is
    when the phase is not playing, and handleBlockClick also does so when
    there is no ColorState. *)
Theorem noop_outside_playing (st : Session) (index now : Z) (d : Draws) :
  (gameState st <> playing ->
     handleBlockClick st index d = st /\ tick st now = st) /\
  (colorState st = None -> handleBlockClick st index d = st).
Proof.
  split.
  - intros Hp. unfold handleBlockClick, tick.
    destruct (gameState st); try contradiction; split; reflexivity.
  - intros Hc. unfold handleBlockClick. rewrite Hc.
    destruct (gameState st); reflexivity.
Qed.

Lemma noop_outside_playing_witness :
  handleBlockClick initialSession 0 drawsFirstTile = initialSession /\
  tick initialSession 5000 = initialSession.
Proof.
  destruct (noop_outside_playing initialSession 0 5000 drawsFirstTile)
    as [H1 H2].
  split.
  - apply H2. reflexivity.
  - apply H1. discriminate.
Defined.

(** ** The domains of the session fields *)

Lemma startGame_inDomain st now d : sessionInDomain (startGame st now d).
Proof.
  unfold sessionInDomain. cbn. repeat split; try lia. intros _. discriminate.
Qed.

Lemma handleBlockClick_inDomain st index d :
  sessionInDomain st -> sessionInDomain (handleBlockClick st index d).
Proof.
  intros H. unfold handleBlockClick.
  destruct (gameState st) eqn:Hp; try exact H.
  destruct (colorState st) as [cs|] eqn:Hcs; try exact H.
  destruct H as (Ht & Hl & Hg & _).
  destruct (index =? diffIndex cs); unfold sessionInDomain.
  - cbn [runGenerateLevel generateLevel setColorState setGridSize setTimeLeft
         setStats timeLeft stats level gridSize colorState gameState].
    pose proof (newGridSize_range (level (stats st) + 1) ltac:(lia)).
    repeat split; try lia. intros _. discriminate.
  - cbn. rewrite Hcs. repeat split; try lia. intros _. discriminate.
Qed.

Lemma tick_inDomain st now :
  sessionInDomain st -> sessionInDomain (tick st now).
Proof.
  intros H. unfold tick.
  destruct (gameState st) eqn:Hp; cbn [Phase_eqb]; try exact H.
  destruct H as (Ht & Hl & Hg & Hc).
  assert (Hcs : colorState st <> None)
    by (apply Hc; rewrite Hp; discriminate).
  destruct (Z.leb_spec (timeLeft st) 1); unfold sessionInDomain; cbn;
    repeat split; try lia; intros _; exact Hcs.
Qed.

Lemma step_inDomain st e : sessionInDomain st -> sessionInDomain (step st e).
Proof.
  intros H. destruct e; cbn [step].
  - apply startGame_inDomain.
  - apply handleBlockClick_inDomain; exact H.
  - apply tick_inDomain; exact H.
Qed.

Lemma reachable_inDomain st : reachable st -> sessionInDomain st.
Proof.
  induction 1 as [|st e _ IH _ _].
  - unfold sessionInDomain. cbn. repeat split; try lia. congruence.
  - apply step_inDomain; exact IH.
Qed.

(* While playing there is a ColorState to click against. *)
Lemma reachable_playing_colorState st :
  reachable st -> gameState st = playing ->
  exists cs, colorState st = Some cs.
Proof.
  intros Hr Hp. destruct (reachable_inDomain st Hr) as (_ & _ & _ & Hc).
  destruct (colorState st) as [cs|]; [exists cs; reflexivity|].
  exfalso. apply Hc; [rewrite Hp; discriminate | reflexivity].
Qed.

(** ** How level follows score when every event meets a fresh render

    The lemmas of this section are about [step] and [run], where each event
    is handled by the render of the state it acts on. *)

Lemma startGame_levelTracksScore st now d :
  levelTracksScore (startGame st now d).
Proof. reflexivity. Qed.

Lemma endGame_levelTracksScore st now :
  levelTracksScore st -> levelTracksScore (endGame st now).
Proof. intros H. exact H. Qed.

Lemma tick_levelTracksScore st now :
  levelTracksScore st -> levelTracksScore (tick st now).
Proof.
  intros H. unfold tick.
  destruct (Phase_eqb _ _); [destruct (_ <=? _)|]; exact H.
Qed.

Lemma handleBlockClick_levelTracksScore st index d :
  levelTracksScore st -> levelTracksScore (handleBlockClick st index d).
Proof.
  unfold levelTracksScore, handleBlockClick. intros H.
  destruct (gameState st); try exact H.
  destruct (colorState st) as [cs|]; try exact H.
  destruct (index =? diffIndex cs); cbn; [lia | exact H].
Qed.

Lemma step_levelTracksScore st e :
  levelTracksScore st -> levelTracksScore (step st e).
Proof.
  intros H. destruct e; cbn [step].
  - apply startGame_levelTracksScore.
  - apply handleBlockClick_levelTracksScore; exact H.
  - apply tick_levelTracksScore; exact H.
Qed.

Lemma run_levelTracksScore es : forall st,
  levelTracksScore st -> levelTracksScore (run st es).
Proof.
  induction es as [|e es IH]; intros st H; cbn.
  - exact H.
  - apply IH, step_levelTracksScore, H.
Qed.

Lemma reachable_levelTracksScore st :
  reachable st -> levelTracksScore st.
Proof.
  induction 1 as [|st e _ IH _ _].
  - reflexivity.
  - apply step_levelTracksScore; exact IH.
Qed.

(** * Further properties of the component *)

(** ** Invariants of reachable sessions *)

Lemma generated_levelInstalled (g L : Z) (d : Draws) (st : Session) :
  5 <= g <= 9 -> wfDraws d -> level (stats st) = L ->
  levelInstalled (runGenerateLevel g L d st).
Proof.
  intros Hg Hd HL. unfold levelInstalled, runGenerateLevel.
  cbn [generateLevel setColorState setGridSize gridSize colorState stats
       delta diffIndex].
  rewrite HL. split; [reflexivity|]. split; [reflexivity|]. split.
  - apply (generateLevel_colors_differ g L d Hd).
  - pose proof (genDiffIndex_range g (rIndex d) ltac:(lia)
                  ltac:(apply Hd)) as Hr.
    nia.
Qed.

Lemma step_levelInstalled st e :
  sessionInDomain st -> wfEvent e ->
  levelInstalled st -> levelInstalled (step st e).
Proof.
  intros (_ & _ & Hg & _) He H. destruct e as [now d | index d | now];
    cbn [step wfEvent] in *.
  - unfold startGame. apply generated_levelInstalled;
      [exact Hg | exact He | reflexivity].
  - unfold handleBlockClick.
    destruct (gameState st); try exact H.
    destruct (colorState st) as [cs|] eqn:Hcs; try exact H.
    destruct (index =? diffIndex cs).
    + apply generated_levelInstalled; [exact Hg | exact He | reflexivity].
    + unfold levelInstalled in *. cbn [setTimeLeft gridSize stats colorState].
      rewrite Hcs in *. exact H.
  - unfold tick.
    destruct (Phase_eqb _ _); [|exact H].
    destruct (_ <=? _); exact H.
Qed.

Lemma reachable_levelInstalled st : reachable st -> levelInstalled st.
Proof.
  induction 1 as [|st e Hr IH _ He].
  - split; reflexivity.
  - apply step_levelInstalled;
      [apply reachable_inDomain; exact Hr | exact He | exact IH].
Qed.

Lemma handleBlockClick_gameState st index d :
  gameState (handleBlockClick st index d) = gameState st.
Proof.
  unfold handleBlockClick.
  destruct (gameState st) eqn:Hp; try exact Hp.
  destruct (colorState st) as [cs|]; try exact Hp.
  destruct (index =? diffIndex cs); exact Hp.
Qed.



(** X1: in every reachable session timeLeft is between 0 and 60, the level is
    at least 1, the score is not negative and gridSize is between 5 and 9. *)
Theorem reachable_session_domains (st : Session) :
  reachable st ->
  0 <= timeLeft st <= 60 /\
  1 <= level (stats st) /\
  0 <= score (stats st) /\
  5 <= gridSize st <= 9.
Proof.
  intros Hr.
  destruct (reachable_inDomain st Hr) as (Ht & Hl & Hg & _).
  pose proof (reachable_levelTracksScore st Hr) as Hs.
  unfold levelTracksScore in Hs. repeat split; lia.
Qed.

Lemma reachable_session_domains_witness :
  0 <= timeLeft sessionGameOver <= 60 /\
  1 <= level (stats sessionGameOver) /\
  0 <= score (stats sessionGameOver) /\
  5 <= gridSize sessionGameOver <= 9.
Proof.
  apply (reachable_session_domains sessionGameOver).
  apply reachable_sessionGameOver.
Defined.





(** ** What the page shows *)



(** ** Sequences of ticks and of wrong clicks *)

Lemma run_ticks_not_playing (nows : list Z) : forall st,
  gameState st <> playing -> run st (map Tick nows) = st.
Proof.
  induction nows as [|now nows IH]; intros st Hp; cbn [map run fold_left].
  - reflexivity.
  - fold (run (step st (Tick now)) (map Tick nows)). cbn [step].
    assert (E : tick st now = st).
    { unfold tick. destruct (gameState st); try reflexivity.
      contradiction Hp. reflexivity. }
    rewrite E. apply IH. exact Hp.
Qed.

(** X6: clock ticks alone, from a playing session, count timeLeft down by one
    each and end the game at tick number max(1, timeLeft): before that the
    phase is playing, from then on it is gameover with timeLeft 0; score,
    level, startTime, ColorState and gridSize are never touched. *)
Theorem ticks_countdown (nows : list Z) : forall st : Session,
  gameState st = playing ->
  let st' := run st (map Tick nows) in
  let k := Z.of_nat (length nows) in
  (k < Z.max 1 (timeLeft st) ->
     gameState st' = playing /\ timeLeft st' = timeLeft st - k) /\
  (Z.max 1 (timeLeft st) <= k ->
     gameState st' = gameover /\ timeLeft st' = 0) /\
  score (stats st') = score (stats st) /\
  level (stats st') = level (stats st) /\
  startTime (stats st') = startTime (stats st) /\
  colorState st' = colorState st /\
  gridSize st' = gridSize st.
Proof.
  induction nows as [|now nows IH]; intros st Hp; cbv zeta.
  - cbn [map run fold_left length Z.of_nat].
    repeat split; try reflexivity; try lia; try exact Hp.
  - cbn [map run fold_left]. fold (run (step st (Tick now)) (map Tick nows)).
    cbn [step length]. rewrite Nat2Z.inj_succ.
    unfold tick. rewrite Hp. cbn [Phase_eqb].
    destruct (Z.leb_spec (timeLeft st) 1) as [Hle | Hgt].
    + rewrite run_ticks_not_playing by (cbn; discriminate).
      cbn. repeat split; lia.
    + specialize (IH (setTimeLeft (fun prev => prev - 1) st) Hp).
      cbv zeta in IH. cbn [setTimeLeft timeLeft stats colorState gridSize] in IH.
      destruct IH as (Hlt & Hge & Hs & Hl & Hst & Hc & Hg).
      repeat split; try assumption.
      * apply Hlt. lia.
      * destruct Hlt as [_ E]; [lia|]. rewrite E. lia.
      * apply Hge. lia.
      * apply Hge. lia.
Qed.

Lemma ticks_countdown_witness :
  let st := startGame initialSession 1000 drawsFirstTile in
  gameState (run st (map Tick (repeat 2000 44))) = playing /\
  gameState (run st (map Tick (repeat 2000 45))) = gameover.
Proof.
  cbv zeta. split.
  - destruct (ticks_countdown (repeat 2000 44)
                (startGame initialSession 1000 drawsFirstTile) eq_refl)
      as (H & _).
    apply H. vm_compute. reflexivity.
  - destruct (ticks_countdown (repeat 2000 45)
                (startGame initialSession 1000 drawsFirstTile) eq_refl)
      as (_ & H & _).
    apply H. vm_compute. discriminate.
Defined.

(** X7: wrong clicks alone, from a playing session with a ColorState and a
    timeLeft that is not negative, leave everything but timeLeft as it is:
    n of them give timeLeft = max(0, timeLeft - 5n), and the phase stays
    playing however many there are. *)
Theorem wrong_clicks_compose (cs : ColorState) (es : list Event) :
  forall st : Session,
  gameState st = playing ->
  colorState st = Some cs ->
  0 <= timeLeft st ->
  forallb (missesTarget cs) es = true ->
  run st es =
  setTimeLeft (fun t => Z.max 0 (t - 5 * Z.of_nat (length es))) st.
Proof.
  induction es as [|e es IH]; intros st Hp Hc Ht Hes.
  - cbn. destruct st as [p c s t g]. unfold setTimeLeft. cbn in *.
    f_equal. lia.
  - cbn [forallb] in Hes. apply andb_true_iff in Hes.
    destruct Hes as [He Hes].
    destruct e as [now d | index d | now]; cbn [missesTarget] in He;
      try discriminate.
    cbn [run fold_left]. fold (run (step st (BlockClick index d)) es).
    cbn [step]. unfold handleBlockClick. rewrite Hp, Hc.
    apply negb_true_iff in He. rewrite He.
    rewrite IH; [| exact Hp | exact Hc | cbn; lia | exact Hes].
    unfold setTimeLeft.
    cbn [gameState colorState stats timeLeft gridSize length].
    f_equal. rewrite Nat2Z.inj_succ. lia.
Qed.

Lemma wrong_clicks_compose_witness :
  timeLeft (run (startGame initialSession 1000 drawsFirstTile)
                (repeat (BlockClick 3 drawsFirstTile) 20)) = 0.
Proof.
  rewrite (wrong_clicks_compose
             (snd (generateLevel 5 1 drawsFirstTile))
             (repeat (BlockClick 3 drawsFirstTile) 20)
             (startGame initialSession 1000 drawsFirstTile)
             eq_refl eq_refl ltac:(vm_compute; discriminate)
             ltac:(vm_compute; reflexivity)).
  vm_compute. reflexivity.
Defined.

(** X8: within a game (any click or tick, from a reachable session) score,
    level and gridSize never go down, startTime is kept, timeLeft grows by
    at most 1, and the phase either stays or goes from playing to
    gameover. *)
Theorem game_progress_monotone (st : Session) (e : Event) :
  reachable st ->
  isStartGame e = false ->
  let st' := step st e in
  score (stats st) <= score (stats st') /\
  level (stats st) <= level (stats st') /\
  gridSize st <= gridSize st' /\
  startTime (stats st') = startTime (stats st) /\
  timeLeft st' <= timeLeft st + 1 /\
  (gameState st' = gameState st \/
   gameState st = playing /\ gameState st' = gameover).
Proof.
  intros Hr He st'. subst st'.
  destruct (reachable_levelInstalled st Hr) as [Hg _].
  destruct (reachable_inDomain st Hr) as (Ht & _).
  destruct e as [now d | index d | now]; cbn [isStartGame] in He;
    try discriminate; cbn [step].
  - unfold handleBlockClick.
    destruct (gameState st) eqn:Hp; try (repeat split; try lia; left; congruence).
    destruct (colorState st) as [cs|];
      try (repeat split; try lia; left; congruence).
    destruct (index =? diffIndex cs).
    + cbn [runGenerateLevel generateLevel setColorState setGridSize
           setTimeLeft setStats stats score level startTime gridSize
           timeLeft gameState].
      pose proof (newGridSize_mono (level (stats st))
                    (level (stats st) + 1) ltac:(lia)).
      repeat split; try lia. left. exact Hp.
    + cbn. repeat split; try lia. left. exact Hp.
  - unfold tick.
    destruct (gameState st) eqn:Hp; cbn [Phase_eqb];
      try (repeat split; try lia; left; congruence).
    destruct (timeLeft st <=? 1); cbn.
    + repeat split; try lia. right. split; reflexivity.
    + repeat split; try lia. left. exact Hp.
Qed.

Lemma game_progress_monotone_witness :
  let st := step initialSession (StartGame 1000 drawsFirstTile) in
  let st' := step st (BlockClick 0 drawsFirstTile) in
  score (stats st) <= score (stats st') /\
  level (stats st) <= level (stats st') /\
  gridSize st <= gridSize st'.
Proof.
  destruct (game_progress_monotone
              (step initialSession (StartGame 1000 drawsFirstTile))
              (BlockClick 0 drawsFirstTile)
              (reachable_step initialSession
                              (StartGame 1000 drawsFirstTile)
                              reachable_init eq_refl
                              wfDraws_drawsFirstTile)
              eq_refl) as (Hs & Hl & Hg & _).
  cbv zeta. repeat split; assumption.
Defined.

(** ** The tiles of the grid *)

Lemma Hsl_eqb_sym a b : Hsl_eqb a b = Hsl_eqb b a.
Proof.
  unfold Hsl_eqb.
  rewrite (Z.eqb_sym (hue a)), (Z.eqb_sym (saturation a)), Qeq_bool_comm.
  reflexivity.
Qed.

Lemma countColor_partition (cs : ColorState) (len : nat) : forall s : nat,
  Hsl_eqb (diffColor cs) (baseColor cs) = false ->
  (countColor (baseColor cs)
              (map (fun i => tileColor cs (Z.of_nat i)) (seq s len)) +
   countColor (diffColor cs)
              (map (fun i => tileColor cs (Z.of_nat i)) (seq s len)))%nat
  = len.
Proof.
  unfold countColor.
  induction len as [|len IH]; intros s Hne; [reflexivity|].
  cbn [seq map]. specialize (IH (S s) Hne).
  unfold tileColor at 1 3.
  destruct (Z.of_nat s =? diffIndex cs); cbn [filter].
  - rewrite Hsl_eqb_refl, (Hsl_eqb_sym (baseColor cs)), Hne.
    cbn [length]. lia.
  - rewrite Hsl_eqb_refl, Hne. cbn [length]. lia.
Qed.

(** X9: in every reachable playing session the grid has gridSize * gridSize
    tiles; the tile at the target index shows the target colour when that
    index is below gridSize * gridSize, and every other tile shows the base
    colour, which is a different colour. *)
Theorem reachable_grid_tiles (st : Session) :
  reachable st ->
  gameState st = playing ->
  exists cs,
    colorState st = Some cs /\
    let shown := if diffIndex cs <? gridSize st * gridSize st
                 then 1%nat else 0%nat in
    length (renderGrid st) = Z.to_nat (gridSize st * gridSize st) /\
    countColor (diffColor cs) (renderGrid st) = shown /\
    countColor (baseColor cs) (renderGrid st) =
      (Z.to_nat (gridSize st * gridSize st) - shown)%nat.
Proof.
  intros Hr Hp.
  destruct (reachable_playing_colorState st Hr Hp) as [cs Hcs].
  destruct (reachable_levelInstalled st Hr) as [_ Hl].
  rewrite Hcs in Hl. destruct Hl as (_ & Hne & Hlo & _).
  destruct (reachable_inDomain st Hr) as (_ & _ & Hg & _).
  exists cs. split; [exact Hcs|]. cbv zeta.
  unfold renderGrid. rewrite Hp, Hcs.
  pose proof (countColor_partition cs (Z.to_nat (gridSize st * gridSize st))
                0%nat Hne) as Hsum.
  pose proof (countColor_tiles cs (Z.to_nat (gridSize st * gridSize st))
                0%nat Hne) as Hdiff.
  cbn [Nat.add Z.of_nat] in Hdiff. rewrite Z2Nat.id in Hdiff by nia.
  destruct (Z.leb_spec 0 (diffIndex cs)); [|lia]. cbn [andb] in Hdiff.
  split; [rewrite length_map, length_seq; reflexivity|].
  split; [exact Hdiff|].
  rewrite Hdiff in Hsum.
  destruct (diffIndex cs <? gridSize st * gridSize st); lia.
Qed.

Lemma reachable_grid_tiles_witness :
  exists cs,
    colorState sessionRestarted = Some cs /\
    countColor (diffColor cs) (renderGrid sessionRestarted) = 0%nat.
Proof.
  destruct (reachable_grid_tiles sessionRestarted reachable_sessionRestarted
              ltac:(vm_compute; reflexivity)) as (cs & Hcs & _ & Hd & _).
  exists cs. split; [exact Hcs|].
  rewrite Hd. vm_compute in Hcs. injection Hcs as <-. reflexivity.
Defined.

(** ** Where the target can be *)

Lemma step_targetInGrid st e :
  sessionInDomain st -> levelInstalled st -> wfEvent e ->
  isStartGame e = false ->
  targetInGrid st -> targetInGrid (step st e).
Proof.
  intros (_ & Hl & Hg & _) [Hgs _] He Hs H.
  destruct e as [now d | index d | now]; cbn [isStartGame] in Hs;
    try discriminate; cbn [step wfEvent] in *.
  - unfold handleBlockClick.
    destruct (gameState st); try exact H.
    destruct (colorState st) as [cs|] eqn:Hcs; try exact H.
    destruct (index =? diffIndex cs).
    + unfold targetInGrid.
      cbn [runGenerateLevel generateLevel setColorState setGridSize
           colorState gridSize diffIndex].
      pose proof (genDiffIndex_range (gridSize st) (rIndex d) ltac:(lia)
                    ltac:(apply He)) as Hr.
      pose proof (newGridSize_mono (level (stats st))
                    (level (stats st) + 1) ltac:(lia)) as Hm.
      rewrite <- Hgs in Hm. nia.
    + unfold targetInGrid in *. cbn [setTimeLeft colorState gridSize].
      rewrite Hcs in *. exact H.
  - unfold tick. destruct (Phase_eqb _ _); [|exact H].
    destruct (_ <=? _); exact H.
Qed.

Lemma run_targetInGrid es : forall st,
  sessionInDomain st -> levelInstalled st -> targetInGrid st ->
  Forall wfEvent es -> withinGame es = true ->
  sessionInDomain (run st es) /\ levelInstalled (run st es) /\
  targetInGrid (run st es).
Proof.
  induction es as [|e es IH]; intros st Hd Hl Ht Hes Hw.
  - cbn [run fold_left]. split; [|split]; assumption.
  - cbn [run fold_left]. fold (run (step st e) es).
    inversion Hes; subst. cbn [withinGame forallb] in Hw.
    apply andb_true_iff in Hw. destruct Hw as [Hs Hw].
    apply negb_true_iff in Hs.
    apply IH; try assumption.
    + apply step_inDomain; exact Hd.
    + apply step_levelInstalled; assumption.
    + apply step_targetInGrid; assumption.
Qed.

(** X10: a game started from a session whose gridSize is 5 (the first game,
    or one after a game that ended before level 6) keeps the target inside
    the rendered grid at every level: whenever such a game is in the playing
    phase exactly one tile shows the target colour. *)
Theorem game_from_5x5_has_target
        (st0 : Session) (now : Z) (d : Draws) (es : list Event) :
  gridSize st0 = 5 ->
  wfDraws d ->
  Forall wfEvent es ->
  withinGame es = true ->
  let st := run (startGame st0 now d) es in
  exists cs,
    colorState st = Some cs /\
    0 <= diffIndex cs < gridSize st * gridSize st /\
    (gameState st = playing ->
     countColor (diffColor cs) (renderGrid st) = 1%nat).
Proof.
  intros Hg Hd Hes Hw st.
  assert (Hdom : sessionInDomain (startGame st0 now d))
    by apply startGame_inDomain.
  assert (Hlvl : levelInstalled (startGame st0 now d)).
  { unfold startGame. apply generated_levelInstalled;
      [lia | exact Hd | reflexivity]. }
  assert (Htgt : targetInGrid (startGame st0 now d)).
  { unfold targetInGrid, startGame.
    cbn [runGenerateLevel generateLevel setColorState setGridSize
         colorState gridSize diffIndex].
    rewrite Hg. change (newGridSize 1) with 5.
    apply (genDiffIndex_range 5); [lia | apply Hd]. }
  destruct (run_targetInGrid es _ Hdom Hlvl Htgt Hes Hw)
    as ((_ & _ & Hgs & Hc) & (_ & Hl) & Ht).
  fold st in Hgs, Hc, Hl, Ht. unfold targetInGrid in Ht.
  destruct (colorState st) as [cs|] eqn:Hcs.
  - exists cs. split; [reflexivity|]. split; [exact Ht|].
    intros Hp. destruct Hl as (_ & Hne & _).
    unfold renderGrid. rewrite Hp, Hcs.
    rewrite (countColor_tiles cs _ 0%nat Hne).
    cbn [Nat.add Z.of_nat]. rewrite Z2Nat.id by nia.
    destruct (Z.leb_spec 0 (diffIndex cs)); [|lia].
    destruct (Z.ltb_spec (diffIndex cs) (gridSize st * gridSize st)); [|lia].
    reflexivity.
  - exfalso.
    assert (Hp : gameState st <> start).
    { clear -Hw. subst st.
      assert (G : forall es s, withinGame es = true ->
                  gameState s <> start -> gameState (run s es) <> start).
      { clear. induction es as [|e es IH]; intros s Hw Hs; [exact Hs|].
        cbn [run fold_left]. fold (run (step s e) es).
        cbn [withinGame forallb] in Hw.
        apply andb_true_iff in Hw. destruct Hw as [He Hw].
        apply IH; [exact Hw|].
        destruct e as [n d' | i d' | n]; cbn in He; try discriminate;
          cbn [step].
        - rewrite handleBlockClick_gameState. exact Hs.
        - unfold tick. destruct (gameState s) eqn:E; cbn [Phase_eqb];
            try (rewrite E; exact Hs).
          destruct (_ <=? _); cbn; [discriminate | rewrite E; exact Hs]. }
      apply G; [exact Hw | cbn; discriminate]. }
    apply (Hc Hp). reflexivity.
Qed.

Lemma game_from_5x5_has_target_witness :
  exists cs,
    colorState (run (startGame initialSession 1000 drawsLateIndex)
                    [BlockClick 24 drawsLateIndex]) = Some cs /\
    0 <= diffIndex cs < 25.
Proof.
  destruct (game_from_5x5_has_target initialSession 1000 drawsLateIndex
              [BlockClick 24 drawsLateIndex] eq_refl wfDraws_drawsLateIndex
              (Forall_cons (P := wfEvent) (BlockClick 24 drawsLateIndex)
                           wfDraws_drawsLateIndex (Forall_nil wfEvent))
              eq_refl)
    as (cs & Hcs & Hr & _).
  exists cs. split; [exact Hcs|]. exact Hr.
Defined.

(** X11: once the target index is outside the rendered grid the level cannot
    be passed: whatever tiles are clicked and however the clock ticks (any
    events the page allows, short of a restart), score, level, ColorState and
    gridSize stay as they are and timeLeft never grows. *)
Theorem target_off_grid_unwinnable
        (cs : ColorState) (es : list Event) : forall st : Session,
  colorState st = Some cs ->
  ~ (0 <= diffIndex cs < gridSize st * gridSize st) ->
  withinGame es = true ->
  enabledAlong st es = true ->
  let st' := run st es in
  score (stats st') = score (stats st) /\
  level (stats st') = level (stats st) /\
  colorState st' = Some cs /\
  gridSize st' = gridSize st /\
  (0 <= timeLeft st -> 0 <= timeLeft st' <= timeLeft st).
Proof.
  induction es as [|e es IH]; intros st Hcs Hout Hw Hen; cbv zeta.
  - cbn. repeat split; try assumption; lia.
  - cbn [run fold_left]. fold (run (step st e) es).
    cbn [withinGame forallb] in Hw.
    apply andb_true_iff in Hw. destruct Hw as [Hs Hw].
    cbn [enabledAlong] in Hen.
    apply andb_true_iff in Hen. destruct Hen as [He Hen].
    destruct e as [now d | index d | now]; cbn in Hs; try discriminate;
      cbn [step enabledb] in *.
    + rewrite Hcs in He.
      apply andb_true_iff in He. destruct He as [He Hhi].
      apply andb_true_iff in He. destruct He as [He Hlo].
      apply andb_true_iff in He. destruct He as [Hp _].
      apply Z.leb_le in Hlo. apply Z.ltb_lt in Hhi.
      assert (Hph : gameState st = playing)
        by (destruct (gameState st); try discriminate; reflexivity).
      assert (E : handleBlockClick st index d =
                  setTimeLeft (fun prev => Z.max 0 (prev - 5)) st).
      { unfold handleBlockClick. rewrite Hph, Hcs.
        destruct (Z.eqb_spec index (diffIndex cs)); [|reflexivity].
        exfalso. apply Hout. lia. }
      rewrite E in *.
      specialize (fun a b => IH _ a b Hw Hen) as IH'.
      specialize (IH' Hcs Hout). clear IH. rename IH' into IH.
      cbv zeta in IH.
      cbn [setTimeLeft stats gridSize timeLeft] in IH.
      destruct IH as (H1 & H2 & H3 & H4 & H5).
      split; [exact H1|]. split; [exact H2|]. split; [exact H3|].
      split; [exact H4|]. intros Ht. lia.
    + assert (Hph : gameState st = playing)
        by (destruct (gameState st); try discriminate; reflexivity).
      unfold tick in *. rewrite Hph in *. cbn [Phase_eqb] in *.
      destruct (Z.leb_spec (timeLeft st) 1).
      * specialize (fun a b => IH _ a b Hw Hen) as IH'.
      specialize (IH' Hcs Hout). clear IH. rename IH' into IH.
      cbv zeta in IH.
        cbn [setTimeLeft endGame setStats setGameState stats gridSize
             timeLeft score level] in IH.
        destruct IH as (H1 & H2 & H3 & H4 & H5).
        split; [exact H1|]. split; [exact H2|]. split; [exact H3|].
        split; [exact H4|]. intros Ht. lia.
      * specialize (fun a b => IH _ a b Hw Hen) as IH'.
      specialize (IH' Hcs Hout). clear IH. rename IH' into IH.
      cbv zeta in IH.
        cbn [setTimeLeft stats gridSize timeLeft] in IH.
        destruct IH as (H1 & H2 & H3 & H4 & H5).
        split; [exact H1|]. split; [exact H2|]. split; [exact H3|].
        split; [exact H4|]. intros Ht. lia.
Qed.

Lemma target_off_grid_unwinnable_witness :
  score (stats (run sessionRestarted
                    [BlockClick 24 drawsFirstTile; Tick 11000;
                     BlockClick 0 drawsFirstTile])) = 0.
Proof.
  destruct (target_off_grid_unwinnable
              (snd (generateLevel 6 1 drawsLateIndex))
              [BlockClick 24 drawsFirstTile; Tick 11000;
               BlockClick 0 drawsFirstTile]
              sessionRestarted
              ltac:(vm_compute; reflexivity)
              ltac:(vm_compute; intros [_ H]; discriminate H)
              eq_refl
              ltac:(vm_compute; reflexivity)) as (H & _).
  rewrite H. vm_compute. reflexivity.
Defined.

(** ** Restarting *)

(** X13: startGame keeps nothing of the session it is pressed in but the
    captured gridSize: from two sessions with the same gridSize it gives the
    same session, with score 0, level 1, startTime now, endTime 0, 45
    seconds, the playing phase and a 5x5 grid. *)
Theorem startGame_full_reset (st st' : Session) (now : Z) (d : Draws) :
  gridSize st = gridSize st' ->
  startGame st now d = startGame st' now d /\
  stats (startGame st now d) = mkGameStats 0 now 0 1 /\
  timeLeft (startGame st now d) = 45 /\
  gameState (startGame st now d) = playing /\
  gridSize (startGame st now d) = 5.
Proof.
  intros Hg. unfold startGame, runGenerateLevel. rewrite Hg.
  cbn [generateLevel setColorState setGridSize setGameState setTimeLeft
       setStats gameState colorState stats timeLeft gridSize].
  repeat split.
Qed.

Lemma startGame_full_reset_witness :
  startGame initialSession 7000 drawsLateIndex =
  startGame sessionThreeSecondsLeft 7000 drawsLateIndex.
Proof.
  apply (startGame_full_reset initialSession sessionThreeSecondsLeft
           7000 drawsLateIndex eq_refl).
Defined.

(** ** How long a game can last *)

Lemma game_over_stops (st : Session) (es : list Event) :
  gameState st <> playing ->
  withinGame es = true -> enabledAlong st es = true -> es = [].
Proof.
  intros Hp Hw Hen. destruct es as [|e es]; [reflexivity|]. exfalso.
  cbn [withinGame forallb] in Hw. apply andb_true_iff in Hw.
  destruct Hw as [Hs _].
  cbn [enabledAlong] in Hen. apply andb_true_iff in Hen.
  destruct Hen as [He _].
  destruct e as [now d | index d | now]; cbn in Hs, He; try discriminate;
    destruct (gameState st); try discriminate; apply Hp; reflexivity.
Qed.

Lemma game_length_from (es : list Event) : forall st : Session,
  gameState st = playing ->
  0 <= timeLeft st ->
  withinGame es = true ->
  enabledAlong st es = true ->
  let st' := run st es in
  0 <= timeLeft st' /\
  countTicks es + timeLeft st' <=
    timeLeft st + (score (stats st') - score (stats st)) +
    (if Phase_eqb (gameState st') gameover then 1 else 0).
Proof.
  induction es as [|e es IH]; intros st Hp Ht Hw Hen; cbv zeta.
  - cbn [run fold_left]. unfold countTicks. cbn. rewrite Hp. cbn. lia.
  - cbn [run fold_left]. fold (run (step st e) es).
    cbn [withinGame forallb] in Hw.
    apply andb_true_iff in Hw. destruct Hw as [Hs Hw].
    cbn [enabledAlong] in Hen.
    apply andb_true_iff in Hen. destruct Hen as [He Hen].
    destruct e as [now d | index d | now]; cbn in Hs; try discriminate.
    + (* a click *)
      assert (Hc : countTicks (BlockClick index d :: es) = countTicks es)
        by reflexivity.
      rewrite Hc. cbn [step] in *.
      pose proof (handleBlockClick_gameState st index d) as Hp'.
      rewrite Hp in Hp'.
      assert (Hb : 0 <= timeLeft (handleBlockClick st index d) /\
                   timeLeft (handleBlockClick st index d) -
                   score (stats (handleBlockClick st index d)) <=
                   timeLeft st - score (stats st)).
      { unfold handleBlockClick. rewrite Hp.
        destruct (colorState st) as [cs|]; [|lia].
        destruct (index =? diffIndex cs); cbn; lia. }
      specialize (IH _ Hp' (proj1 Hb) Hw Hen). cbv zeta in IH. lia.
    + (* a tick *)
      assert (Hc : countTicks (Tick now :: es) = 1 + countTicks es).
      { unfold countTicks. cbn [filter isTick length].
        rewrite Nat2Z.inj_succ. lia. }
      rewrite Hc. cbn [step] in *.
      unfold tick in *. rewrite Hp in *. cbn [Phase_eqb] in *.
      destruct (Z.leb_spec (timeLeft st) 1).
      * assert (Ees : es = []).
        { apply (game_over_stops (setTimeLeft (fun _ => 0) (endGame st now)));
            [cbn; discriminate | exact Hw | exact Hen]. }
        subst es. cbn [run fold_left]. unfold countTicks. cbn. lia.
      * assert (Hp' : gameState (setTimeLeft (fun prev => prev - 1) st)
                      = playing) by exact Hp.
        specialize (IH _ Hp' ltac:(cbn; lia) Hw Hen). cbv zeta in IH.
        cbn [setTimeLeft timeLeft stats] in IH. lia.
Qed.

(** X14: a game cannot outlast its score by much: after any clicks and clock
    ticks of one game, the number of ticks so far plus the time left is at
    most 45 plus the score while the game is on, and at most 46 plus the
    score when it is over. *)
Theorem game_length_bound
        (st0 : Session) (now : Z) (d : Draws) (es : list Event) :
  withinGame es = true ->
  enabledAlong (startGame st0 now d) es = true ->
  let st := run (startGame st0 now d) es in
  0 <= timeLeft st /\
  countTicks es + timeLeft st <=
    45 + score (stats st) +
    (if Phase_eqb (gameState st) gameover then 1 else 0).
Proof.
  intros Hw Hen st.
  destruct (game_length_from es (startGame st0 now d) eq_refl
              ltac:(cbn; lia) Hw Hen) as [H0 H]. fold st in H0, H.
  split; [exact H0|].
  change (timeLeft (startGame st0 now d)) with 45 in H.
  change (score (stats (startGame st0 now d))) with 0 in H. lia.
Qed.

Lemma game_length_bound_witness :
  let es := tl playToGameOver in
  let st := run (startGame initialSession 1000 drawsFirstTile) es in
  0 <= timeLeft st /\
  countTicks es + timeLeft st <=
    45 + score (stats st) +
    (if Phase_eqb (gameState st) gameover then 1 else 0).
Proof.
  apply (game_length_bound initialSession 1000 drawsFirstTile
           (tl playToGameOver)); vm_compute; reflexivity.
Defined.

(** ** The difficulty curve in doubles *)

Lemma In_levelsUpTo (n : nat) (L : Z) :
  1 <= L <= Z.of_nat n -> In L (Binary64.levelsUpTo n).
Proof.
  intros HL. unfold Binary64.levelsUpTo. apply in_map_iff.
  exists (Z.to_nat L). split; [lia|]. apply in_seq. lia.
Qed.

Lemma delta64_ok_500 :
  forallb delta64_ok (Binary64.levelsUpTo 500) = true.
Proof. vm_compute. reflexivity. Qed.

Lemma gridSize64_ok_500 :
  forallb gridSize64_ok (Binary64.levelsUpTo 500) = true.
Proof. vm_compute. reflexivity. Qed.

(** X15: on levels 1 to 500 the grid size computed with binary64 arithmetic
    (the division by 5 and the sum rounded to doubles, then Math.floor and
    Math.min) is the exact min(9, floor(5 + (L-1)/5)). *)
Theorem binary64_gridSize_exact (L : Z) :
  1 <= L <= 500 ->
  Binary64.gridSize64 L = Some (newGridSize L).
Proof.
  intros HL.
  pose proof (proj1 (forallb_forall _ _) gridSize64_ok_500 L
                (In_levelsUpTo 500 L HL)) as H.
  unfold gridSize64_ok in H.
  destruct (Binary64.gridSize64 L) as [g|]; [|discriminate].
  apply Z.eqb_eq in H. rewrite H. reflexivity.
Qed.

Lemma binary64_gridSize_exact_witness :
  Binary64.gridSize64 21 = Some 9.
Proof.
  rewrite (binary64_gridSize_exact 21 ltac:(lia)). reflexivity.
Defined.

(** X16: on levels 1 to 500 the delta computed with binary64 arithmetic is a
    finite double within 2^-48 of the exact max(1, 15 - 0.8*L), it is at
    least 1, and the double of the next level is not larger. *)
Theorem binary64_delta_close (L : Z) :
  1 <= L <= 500 ->
  exists x y : Q,
    Binary64.toQ (Binary64.baseDelta64 L) = Some x /\
    Binary64.toQ (Binary64.baseDelta64 (L + 1)) = Some y /\
    (Qabs (x - baseDelta L) <= 1 # (2 ^ 48))%Q /\
    (1 <= x)%Q /\
    (y <= x)%Q.
Proof.
  intros HL.
  pose proof (proj1 (forallb_forall _ _) delta64_ok_500 L
                (In_levelsUpTo 500 L HL)) as H.
  unfold delta64_ok in H.
  destruct (Binary64.toQ (Binary64.baseDelta64 L)) as [x|]; [|discriminate].
  destruct (Binary64.toQ (Binary64.baseDelta64 (L + 1))) as [y|];
    [|discriminate].
  apply andb_true_iff in H. destruct H as [H Hy].
  apply andb_true_iff in H. destruct H as [Hc H1].
  exists x, y. repeat split; try reflexivity; apply Qle_bool_imp_le;
    assumption.
Qed.

Lemma binary64_delta_close_witness :
  exists x y : Q,
    Binary64.toQ (Binary64.baseDelta64 3) = Some x /\
    Binary64.toQ (Binary64.baseDelta64 4) = Some y /\
    (y <= x)%Q.
Proof.
  destruct (binary64_delta_close 3 ltac:(lia))
    as (x & y & Hx & Hy & _ & _ & Hyx).
  exists x, y. repeat split; assumption.
Defined.

(** * Binary64 arithmetic of the level generator *)

(** ** Shifts and digits *)


Lemma digits2_pos_bounds (p : positive) :
  2 ^ (Zpos (digits2_pos p) - 1) <= Zpos p < 2 ^ Zpos (digits2_pos p).
Proof.
  induction p as [p IH | p IH |]; cbn [digits2_pos].
  - rewrite Pos2Z.inj_succ.
    replace (Z.succ (Z.pos (digits2_pos p)) - 1)
      with (Z.succ (Z.pos (digits2_pos p) - 1)) by lia.
    rewrite !Z.pow_succ_r by lia. lia.
  - rewrite Pos2Z.inj_succ.
    replace (Z.succ (Z.pos (digits2_pos p)) - 1)
      with (Z.succ (Z.pos (digits2_pos p) - 1)) by lia.
    rewrite !Z.pow_succ_r by lia. lia.
  - cbn. lia.
Qed.

(* The number of binary digits is determined by the bounds. *)
Lemma digits2_pos_unique (p : positive) (d : Z) :
  2 ^ (d - 1) <= Zpos p < 2 ^ d -> Zpos (digits2_pos p) = d.
Proof.
  intros [Hlo Hhi].
  pose proof (digits2_pos_bounds p) as [Blo Bhi].
  assert (Hd : 0 < d).
  { destruct (Z.ltb_spec 0 d); [assumption|].
    exfalso. assert (2 ^ d <= 1).
    { destruct (Z.eq_dec d 0) as [->|]; [cbn; lia|].
      rewrite Z.pow_neg_r by lia. lia. }
    lia. }
  destruct (Z.lt_trichotomy (Zpos (digits2_pos p)) d) as [H | [H | H]];
    [exfalso | exact H | exfalso].
  - assert (2 ^ Zpos (digits2_pos p) <= 2 ^ (d - 1))
      by (apply Z.pow_le_mono_r; lia). lia.
  - assert (2 ^ d <= 2 ^ (Zpos (digits2_pos p) - 1))
      by (apply Z.pow_le_mono_r; lia). lia.
Qed.

Lemma iter_pos_inv {A : Type} (f : A -> A) (Inv : Z -> A -> Prop) :
  (forall j x, 0 <= j -> Inv j x -> Inv (j + 1) (f x)) ->
  forall p j x, 0 <= j -> Inv j x -> Inv (j + Zpos p) (iter_pos f p x).
Proof.
  intros Hstep. induction p as [p IH | p IH |]; intros j x Hj Hx;
    cbn [iter_pos].
  - replace (j + Z.pos p~1) with (j + 1 + Zpos p + Zpos p) by lia.
    apply IH; [lia|]. apply IH; [lia|]. apply Hstep; assumption.
  - replace (j + Z.pos p~0) with (j + Zpos p + Zpos p) by lia.
    apply IH; [lia|]. apply IH; assumption.
  - apply Hstep; assumption.
Qed.


Lemma shr_1_shifted (P : Z) (j : Z) (r : shr_record) :
  0 <= P -> 0 <= j -> shifted P j r -> shifted P (j + 1) (shr_1 r).
Proof.
  intros HP Hj [Hm _].
  assert (Hpow : 0 < 2 ^ j) by (apply Z.pow_pos_nonneg; lia).
  assert (Hpow' : 2 ^ (j + 1) = 2 * 2 ^ j)
    by (rewrite Z.pow_add_r by lia; lia).
  pose proof (Z.div_mod P (2 ^ j) ltac:(lia)) as Hdm.
  pose proof (Z.mod_pos_bound P (2 ^ j) Hpow) as Hb.
  assert (Hq : 0 <= P / 2 ^ j) by (apply Z.div_pos; lia).
  assert (Hhalf : P / 2 ^ (j + 1) = (P / 2 ^ j) / 2).
  { rewrite Hpow', Z.mul_comm, <- Z.div_div by lia. reflexivity. }
  destruct r as [m r s]. cbn [shr_m] in Hm. subst m.
  unfold shifted. rewrite Hhalf.
  set (a := P / 2 ^ j) in *.
  assert (Hrest : forall b : bool,
            (b = true -> a = 2 * (a / 2) + 1) ->
            b = true -> 2 ^ (j + 1) <= 2 * (P mod 2 ^ (j + 1))).
  { intros b Hb1 Hb2. specialize (Hb1 Hb2).
    assert (E : P mod 2 ^ (j + 1) = 2 ^ j + P mod 2 ^ j).
    { symmetry. apply (Z.mod_unique_pos P (2 ^ (j + 1)) (a / 2)).
      - rewrite Hpow'. lia.
      - rewrite Hpow'. nia. }
    rewrite E, Hpow'. lia. }
  destruct a as [|p|p] eqn:Ea; [| |lia].
  - cbn. split; [reflexivity | discriminate].
  - destruct p as [p|p|]; cbn [shr_1 shr_m shr_r].
    + split; [rewrite Pos2Z.inj_xI, Z.mul_comm, Z.div_add_l by lia; cbn; lia|].
      apply (Hrest true). intros _.
      rewrite Pos2Z.inj_xI at 2.
      rewrite (Z.mul_comm 2 (Z.pos p)), Z.div_add_l by lia. cbn. lia.
    + split; [rewrite Pos2Z.inj_xO, Z.mul_comm, Z.div_mul by lia; reflexivity|].
      discriminate.
    + split; [reflexivity|].
      apply (Hrest true). intros _. reflexivity.
Qed.

Lemma iter_shr_1_shifted (P : Z) (p : positive) (r : shr_record) :
  0 <= P -> shr_m r = P -> shr_r r = false ->
  shifted P (Zpos p) (iter_pos shr_1 p r).
Proof.
  intros HP Hm Hr.
  change (Zpos p) with (0 + Zpos p).
  apply (iter_pos_inv shr_1 (shifted P)).
  - intros j x Hj Hx. apply shr_1_shifted; assumption.
  - lia.
  - split; [rewrite Z.pow_0_r, Z.div_1_r; exact Hm|].
    rewrite Hr. discriminate.
Qed.

Lemma fexp64_eq (e : Z) : fexp 53 1024 e = Z.max (e - 53) (-1074).
Proof. reflexivity. Qed.

Lemma shr_nonpos (r : shr_record) (e k : Z) :
  k <= 0 -> shr r e k = (r, e).
Proof. intros Hk. destruct k; try reflexivity. lia. Qed.

Lemma shr_pos (P e k : Z) :
  0 <= P -> 1 <= k ->
  exists r, shr (Build_shr_record P false false) e k = (r, e + k) /\
            shifted P k r.
Proof.
  intros HP Hk. destruct k as [|p|p]; try lia.
  exists (iter_pos shr_1 p (Build_shr_record P false false)).
  split; [reflexivity|].
  apply iter_shr_1_shifted; [exact HP | reflexivity | reflexivity].
Qed.

Lemma round_shifted (P k : Z) (r : shr_record) :
  shifted P k r ->
  let m' := round_nearest_even (shr_m r) (loc_of_shr_record r) in
  P / 2 ^ k <= m' <= P / 2 ^ k + 1 /\
  (m' = P / 2 ^ k + 1 -> 2 ^ k <= 2 * (P mod 2 ^ k)).
Proof.
  intros [Hm Hr]. destruct r as [m [|] [|]]; cbn in *; subst m.
  - split; [lia|]. intros _. apply Hr. reflexivity.
  - destruct (Z.even (P / 2 ^ k)).
    + split; [lia|]. intros; lia.
    + split; [lia|]. intros _. apply Hr. reflexivity.
  - split; [lia|]. intros; lia.
  - split; [lia|]. intros; lia.
Qed.

Lemma rounded_scaled_bounds (P k m' : Z) :
  0 <= P -> 1 <= k ->
  P / 2 ^ k <= m' <= P / 2 ^ k + 1 ->
  (m' = P / 2 ^ k + 1 -> 2 ^ k <= 2 * (P mod 2 ^ k)) ->
  P - 2 ^ k < m' * 2 ^ k /\ 2 * (m' * 2 ^ k) <= 2 * P + 2 ^ k.
Proof.
  intros HP Hk Hm Hup.
  assert (Hpow : 0 < 2 ^ k) by (apply Z.pow_pos_nonneg; lia).
  pose proof (Z.div_mod P (2 ^ k) ltac:(lia)) as Hdm.
  pose proof (Z.mod_pos_bound P (2 ^ k) Hpow) as Hb.
  destruct (Z.eq_dec m' (P / 2 ^ k)) as [-> | Hne].
  - nia.
  - assert (E : m' = P / 2 ^ k + 1) by lia.
    specialize (Hup E). rewrite E. nia.
Qed.

(** The result of rounding a positive integer P * 2^E to binary64: V is the
    rounded value in units of 2^E. *)
Lemma binary_round_aux_spec (sx : bool) (P : positive) (E : Z) :
  let d := Zpos (digits2_pos P) in
  let k := fexp 53 1024 (d + E) - E in
  let res := binary_round_aux 53 1024 sx (Zpos P) E loc_Exact in
  exists V e2 : Z,
    (k <= 0 -> V = Zpos P) /\
    (1 <= k -> Zpos P - 2 ^ k < V /\ 2 * V <= 2 * Zpos P + 2 ^ k) /\
    E + Z.max k 0 <= e2 <= E + Z.max k 0 + 1 /\
    ((V = 0 /\ res = S754_zero sx) \/
     (exists m2 : positive,
        Zpos m2 * 2 ^ (e2 - E) = V /\
        res = if e2 <=? 1024 - 53 then S754_finite sx m2 e2
              else S754_infinity sx)).
Proof.
  intros d k res. subst res.
  pose proof (digits2_pos_bounds P) as [Dlo Dhi]. fold d in Dlo, Dhi.
  assert (Hd : 1 <= d) by (subst d; lia).
  unfold binary_round_aux, shr_fexp. cbn [Zdigits2 shr_record_of_loc].
  fold d. fold k.
  destruct (Z.le_gt_cases k 0) as [Hk | Hk].
  - (* no shift: the number is representable *)
    rewrite shr_nonpos by exact Hk.
    cbn [shr_m loc_of_shr_record round_nearest_even Zdigits2
         shr_record_of_loc].
    fold d. fold k. rewrite shr_nonpos by exact Hk. cbn [shr_m].
    exists (Zpos P), E. split; [reflexivity|]. split; [lia|].
    split; [lia|]. right. exists P. split; [|reflexivity].
    rewrite Z.sub_diag. cbn. lia.
  - destruct (shr_pos (Zpos P) E k ltac:(lia) ltac:(lia))
      as (r1 & Hs1 & Hsh).
    rewrite Hs1.
    pose proof (round_shifted _ _ _ Hsh) as Hround. cbv zeta in Hround.
    set (m' := round_nearest_even (shr_m r1) (loc_of_shr_record r1)) in *.
    destruct Hround as [Hm Hup].
    destruct (rounded_scaled_bounds (Zpos P) k m' ltac:(lia) ltac:(lia)
                Hm Hup) as [Blo Bhi].
    assert (Hpow : 0 < 2 ^ k) by (apply Z.pow_pos_nonneg; lia).
    assert (Hkd : d - 53 <= k) by (subst k; rewrite fexp64_eq; lia).
    assert (He1 : -1074 <= E + k) by (subst k; rewrite fexp64_eq; lia).
    assert (Hm1 : 0 <= Z.pos P / 2 ^ k < 2 ^ 53).
    { split; [apply Z.div_pos; lia|].
      apply Z.div_lt_upper_bound; [lia|].
      destruct (Z.le_gt_cases d 53).
      - assert (2 ^ d <= 2 ^ 53) by (apply Z.pow_le_mono_r; lia). nia.
      - assert (2 ^ d = 2 ^ (d - 53) * 2 ^ 53)
          by (rewrite <- Z.pow_add_r by lia; f_equal; lia).
        assert (2 ^ (d - 53) <= 2 ^ k) by (apply Z.pow_le_mono_r; lia).
        nia. }
    assert (Hm' : 0 <= m' <= 2 ^ 53) by lia.
    exists (m' * 2 ^ k).
    destruct m' as [|q|q] eqn:Em; [| |lia].
    + (* rounded to zero *)
      exists (E + k). split; [lia|]. split; [intros _; split; lia|].
      split; [lia|]. left. split; [lia|].
      cbn [Zdigits2 shr_record_of_loc]. rewrite shr_nonpos.
      * reflexivity.
      * rewrite fexp64_eq. lia.
    + pose proof (digits2_pos_bounds q) as [Qlo Qhi].
      cbn [Zdigits2 shr_record_of_loc].
      set (dq := Zpos (digits2_pos q)) in *.
      destruct (Z.le_gt_cases dq 53) as [Hq | Hq].
      * (* the rounded mantissa still has at most 53 digits *)
        rewrite shr_nonpos by (rewrite fexp64_eq; lia).
        cbn [shr_m]. exists (E + k).
        split; [lia|]. split; [intros _; split; lia|].
        split; [lia|]. right. exists q. split; [|reflexivity].
        f_equal. f_equal. lia.
      * (* the rounded mantissa is 2^53 *)
        assert (Eq53 : Zpos q = 2 ^ 53).
        { assert (2 ^ 53 <= 2 ^ (dq - 1))
            by (apply Z.pow_le_mono_r; lia). lia. }
        assert (Edq : dq = 54).
        { subst dq. apply digits2_pos_unique. rewrite Eq53. cbn. lia. }
        assert (Ek2 : fexp 53 1024 (dq + (E + k)) - (E + k) = 1)
          by (rewrite fexp64_eq; lia).
        rewrite Ek2.
        destruct (shr_pos (Zpos q) (E + k) 1 ltac:(lia) ltac:(lia))
          as (r2 & Hs2 & [Hm2 _]).
        rewrite Hs2. rewrite Hm2.
        replace (Z.pos q / 2 ^ 1) with (Zpos (2 ^ 52))
          by (rewrite Eq53; reflexivity).
        cbv iota beta. exists (E + k + 1).
        split; [lia|]. split; [intros _; split; lia|].
        split; [lia|]. right. exists (2 ^ 52)%positive.
        split; [|reflexivity].
        replace (E + k + 1 - E) with (k + 1) by lia.
        rewrite Z.pow_add_r by lia. rewrite Eq53. 
        change (Z.pos (2 ^ 52)) with (2 ^ 52). change (2 ^ 53) with (2 ^ 52 * 2).
        lia.
Qed.

(** ** Magnitudes *)


Lemma digits2_pos_mul (a b : positive) :
  Zpos (digits2_pos a) + Zpos (digits2_pos b) - 1
  <= Zpos (digits2_pos (a * b)).
Proof.
  pose proof (digits2_pos_bounds a) as [Alo _].
  pose proof (digits2_pos_bounds b) as [Blo _].
  pose proof (digits2_pos_bounds (a * b)) as [_ Chi].
  rewrite Pos2Z.inj_mul in Chi.
  set (da := Zpos (digits2_pos a)) in *.
  set (db := Zpos (digits2_pos b)) in *.
  set (dc := Zpos (digits2_pos (a * b))) in *.
  assert (Hlt : 2 ^ (da - 1 + (db - 1)) < 2 ^ dc).
  { rewrite Z.pow_add_r by lia. nia. }
  apply Z.pow_lt_mono_r_iff in Hlt; lia.
Qed.

Lemma digits2_pos_le_of_lt (a : positive) (t : Z) :
  0 <= t -> Zpos a < 2 ^ t -> Zpos (digits2_pos a) <= t.
Proof.
  intros Ht Ha. pose proof (digits2_pos_bounds a) as [Alo _].
  assert (Hlt : 2 ^ (Zpos (digits2_pos a) - 1) < 2 ^ t) by lia.
  apply Z.pow_lt_mono_r_iff in Hlt; lia.
Qed.



(* Rounding keeps the sign, and in the normal range it does not lower the
   magnitude. *)
Lemma binary_round_aux_shape (sx : bool) (P : positive) (E : Z) :
  -1021 <= mag P E ->
  match binary_round_aux 53 1024 sx (Zpos P) E loc_Exact with
  | S754_finite s m e => s = sx /\ mag P E <= mag m e
  | S754_infinity s => s = sx
  | _ => False
  end.
Proof.
  intros Hn. unfold mag in *.
  destruct (binary_round_aux_spec sx P E) as (V & e2 & Hk0 & Hk1 & He2 & Hres).
  cbv zeta in *. rewrite fexp64_eq in *.
  pose proof (digits2_pos_bounds P) as [Dlo Dhi].
  set (d := Zpos (digits2_pos P)) in *.
  assert (Ek : Z.max (d + E - 53) (-1074) - E = d - 53) by lia.
  rewrite Ek in *.
  assert (HV : 2 ^ (d - 1) <= V /\ (V = 0 -> False)).
  { destruct (Z.le_gt_cases (d - 53) 0) as [Hc | Hc].
    - rewrite (Hk0 Hc). lia.
    - destruct (Hk1 ltac:(lia)) as [Vlo _].
      destruct Hres as [[HV0 _] | (m2 & Hm2 & _)].
      + exfalso.
        assert (2 ^ (d - 53) <= 2 ^ (d - 1))
          by (apply Z.pow_le_mono_r; lia). lia.
      + assert (Hsplit1 : 2 ^ (d - 1) = 2 ^ (52) * 2 ^ (d - 53))
          by (rewrite <- Z.pow_add_r by lia; f_equal; lia).
        assert (Hsplit2 : 2 ^ (e2 - E) = 2 ^ (e2 - E - (d - 53)) * 2 ^ (d - 53))
          by (rewrite <- Z.pow_add_r by lia; f_equal; lia).
        assert (0 < 2 ^ (d - 53)) by (apply Z.pow_pos_nonneg; lia).
        assert (0 < 2 ^ (e2 - E - (d - 53)))
          by (apply Z.pow_pos_nonneg; lia).
        split; [|lia].
        rewrite <- Hm2, Hsplit2, Hsplit1, Z.mul_assoc in *.
        apply Z.mul_le_mono_nonneg_r; [lia|].
        set (a := Z.pos m2 * 2 ^ (e2 - E - (d - 53))) in *.
        nia. }
  destruct HV as [HVlo HVnz].
  destruct Hres as [[HV0 _] | (m2 & Hm2 & ->)]; [contradiction|].
  assert (Hmag : d + E <= Zpos (digits2_pos m2) + e2).
  { pose proof (digits2_pos_bounds m2) as [_ Mhi].
    assert (0 < 2 ^ (e2 - E)) by (apply Z.pow_pos_nonneg; lia).
    assert (Hlt : 2 ^ (d - 1) < 2 ^ (Zpos (digits2_pos m2) + (e2 - E))).
    { rewrite Z.pow_add_r by lia. nia. }
    apply Z.pow_lt_mono_r_iff in Hlt; lia. }
  destruct (e2 <=? 1024 - 53); [split; [reflexivity | exact Hmag]|].
  reflexivity.
Qed.

(** ** Aligning and converting integers *)

Lemma pos_iter_xO (m d : positive) :
  Zpos (Pos.iter xO m d) = Zpos m * 2 ^ Zpos d.
Proof.
  induction d as [|d IH] using Pos.peano_ind.
  - cbn. lia.
  - rewrite Pos.iter_succ, Pos2Z.inj_xO, IH, Pos2Z.inj_succ,
      Z.pow_succ_r by lia. lia.
Qed.

Lemma shl_align_spec (mx : positive) (ex ex' : Z) :
  snd (shl_align mx ex ex') = Z.min ex ex' /\
  Zpos (fst (shl_align mx ex ex')) =
    Zpos mx * 2 ^ (ex - Z.min ex ex').
Proof.
  unfold shl_align. destruct (ex' - ex) as [|p|p] eqn:Ed; cbn [fst snd].
  - split; [lia|]. replace (ex - Z.min ex ex') with 0 by lia. cbn. lia.
  - split; [lia|]. replace (ex - Z.min ex ex') with 0 by lia. cbn. lia.
  - split; [lia|]. rewrite pos_iter_xO. f_equal. f_equal. lia.
Qed.

Lemma mag_shl_align (mx : positive) (ex ex' : Z) :
  mag (fst (shl_align mx ex ex')) (snd (shl_align mx ex ex')) = mag mx ex.
Proof.
  destruct (shl_align_spec mx ex ex') as [Hs Hf]. unfold mag.
  rewrite Hs.
  assert (Hd : Zpos (digits2_pos (fst (shl_align mx ex ex'))) =
               Zpos (digits2_pos mx) + (ex - Z.min ex ex')).
  { apply digits2_pos_unique. rewrite Hf.
    pose proof (digits2_pos_bounds mx) as [Lo Hi].
    assert (0 < 2 ^ (ex - Z.min ex ex'))
      by (apply Z.pow_pos_nonneg; lia).
    replace (Zpos (digits2_pos mx) + (ex - Z.min ex ex') - 1)
      with (Zpos (digits2_pos mx) - 1 + (ex - Z.min ex ex')) by lia.
    rewrite !Z.pow_add_r by lia. nia. }
  rewrite Hd. lia.
Qed.

Lemma binary_round_shape (sx : bool) (m : positive) (e : Z) :
  -1021 <= mag m e ->
  match binary_round 53 1024 sx m e with
  | S754_finite s m' e' => s = sx /\ mag m e <= mag m' e'
  | S754_infinity s => s = sx
  | _ => False
  end.
Proof.
  intros Hn. unfold binary_round.
  pose proof (mag_shl_align m e
                (fexp 53 1024 (Z.pos (digits2_pos m) + e))) as Hmag.
  destruct (shl_align m e (fexp 53 1024 (Z.pos (digits2_pos m) + e)))
    as [mz ez]. cbn [fst snd] in Hmag.
  rewrite <- Hmag in *. apply binary_round_aux_shape. exact Hn.
Qed.

(** ** The delta of high levels *)

Lemma ofZ_shape (L : Z) :
  1 <= L -> posAtLeast (Z.log2 L + 1) (Binary64.ofZ L).
Proof.
  intros HL. destruct L as [|p|p]; try lia.
  unfold Binary64.ofZ, binary_normalize.
  change Binary64.prec with 53. change Binary64.emax with 1024.
  assert (Hmag : mag p 0 = Z.log2 (Zpos p) + 1).
  { unfold mag. pose proof (digits2_pos_bounds p) as [Lo Hi].
    rewrite (Z.log2_unique (Zpos p) (Zpos (digits2_pos p) - 1));
      [lia | lia |].
    replace (Z.succ (Zpos (digits2_pos p) - 1))
      with (Zpos (digits2_pos p)) by lia. lia. }
  pose proof (binary_round_shape false p 0) as Hs.
  rewrite Hmag in Hs.
  pose proof (Z.log2_nonneg (Zpos p)).
  specialize (Hs ltac:(lia)).
  destruct (binary_round 53 1024 false p 0) as [s|s| |s m e];
    try contradiction; cbn [posAtLeast].
  - subst s. exact I.
  - destruct Hs as [-> Hs]. exact Hs.
Qed.

Lemma mul_0_8_shape (t : Z) (x : spec_float) :
  -1020 <= t -> posAtLeast t x ->
  posAtLeast (t - 1) (Binary64.mul x Binary64.lit_0_8).
Proof.
  intros Ht Hx. destruct x as [s|[|]| |[|] m e]; try contradiction.
  - exact I.
  - cbn [posAtLeast] in Hx.
    unfold Binary64.mul, Binary64.lit_0_8, SFmul. cbn [xorb].
    change Binary64.prec with 53. change Binary64.emax with 1024.
    pose proof (digits2_pos_mul m 7205759403792794) as Hd.
    change (Zpos (digits2_pos 7205759403792794)) with 53 in Hd.
    pose proof (binary_round_aux_shape false (m * 7205759403792794)
                  (e + -53)) as Hs.
    unfold mag in *. specialize (Hs ltac:(lia)).
    destruct (binary_round_aux 53 1024 false
                (Z.pos (m * 7205759403792794)) (e + -53) loc_Exact)
      as [s|s| |s m' e']; try contradiction; cbn [posAtLeast].
    + subst s. exact I.
    + destruct Hs as [-> Hs]. unfold mag. lia.
Qed.

Lemma sub_15_negative (y : spec_float) :
  posAtLeast 6 y -> isNegative (Binary64.sub (Binary64.ofZ 15) y).
Proof.
  intros Hy. change (Binary64.ofZ 15)
    with (S754_finite false 8444249301319680 (-49)).
  destruct y as [s|[|]| |[|] my ey]; try contradiction.
  - exact I.
  - cbn [posAtLeast] in Hy. unfold mag in Hy.
    unfold Binary64.sub, SFsub. cbn [cond_Zopp].
    change Binary64.prec with 53. change Binary64.emax with 1024.
    set (ez := Z.min (-49) ey).
    destruct (shl_align_spec 8444249301319680 (-49) ez) as [_ HA].
    destruct (shl_align_spec my ey ez) as [_ HB].
    replace (Z.min (-49) ez) with ez in HA by lia.
    replace (Z.min ey ez) with ez in HB by lia.
    set (A := Zpos (fst (shl_align 8444249301319680 (-49) ez))) in *.
    set (B := Zpos (fst (shl_align my ey ez))) in *.
    pose proof (digits2_pos_bounds my) as [Mlo _].
    set (dm := Zpos (digits2_pos my)) in *.
    assert (HAhi : A < 2 ^ (4 - ez)).
    { rewrite HA.
      replace (4 - ez) with (53 + (-49 - ez)) by lia.
      rewrite Z.pow_add_r by lia.
      assert (0 < 2 ^ (-49 - ez)) by (apply Z.pow_pos_nonneg; lia).
      assert (8444249301319680 < 2 ^ 53) by (cbn; lia). nia. }
    assert (HBlo : 2 ^ (5 - ez) <= B).
    { rewrite HB.
      assert (2 ^ (5 - ez) <= 2 ^ (dm - 1 + (ey - ez)))
        by (apply Z.pow_le_mono_r; lia).
      rewrite Z.pow_add_r in * by lia.
      assert (0 < 2 ^ (ey - ez)) by (apply Z.pow_pos_nonneg; lia). nia. }
    assert (Hpow : 2 ^ (5 - ez) = 2 * 2 ^ (4 - ez)).
    { replace (5 - ez) with (Z.succ (4 - ez)) by lia.
      rewrite Z.pow_succ_r by lia. reflexivity. }
    destruct (A - B) as [|q|q] eqn:Ed; try lia.
    unfold binary_normalize.
    assert (Hq : 2 ^ (4 - ez) <= Zpos q) by lia.
    assert (Hmq : 5 <= mag q ez).
    { unfold mag. pose proof (digits2_pos_bounds q) as [_ Qhi].
      assert (Hlt : 2 ^ (4 - ez) < 2 ^ Zpos (digits2_pos q)) by lia.
      apply Z.pow_lt_mono_r_iff in Hlt; lia. }
    pose proof (binary_round_shape true q ez ltac:(lia)) as Hs.
    destruct (binary_round 53 1024 true q ez) as [s|s| |s m' e'];
      try contradiction; cbn [isNegative].
    + subst s. exact I.
    + destruct Hs as [-> _]. exact I.
Qed.

Lemma max_1_negative (x : spec_float) :
  isNegative x -> Binary64.max (Binary64.ofZ 1) x = Binary64.ofZ 1.
Proof.
  intros Hx. destruct x as [[|]|[|]| |[|] m e]; try contradiction;
    reflexivity.
Qed.

(* From level 64 on the computed delta is the double 1. *)
Lemma baseDelta64_high (L : Z) :
  64 <= L -> Binary64.baseDelta64 L = Binary64.ofZ 1.
Proof.
  intros HL. unfold Binary64.baseDelta64.
  apply max_1_negative, sub_15_negative.
  apply (mul_0_8_shape 7); [lia|].
  pose proof (ofZ_shape L ltac:(lia)) as Hs.
  assert (Hlog : 6 <= Z.log2 L).
  { apply Z.log2_le_pow2; [lia | cbn; lia]. }
  destruct (Binary64.ofZ L) as [s|[|]| |[|] m e]; try contradiction;
    cbn in *; lia.
Qed.

(** ** Math.floor(Math.random() * n) *)



Lemma floor_mul_draw (r : spec_float) (mN : positive) (eN n : Z) :
  unitDraw64b r = true ->
  eN <= 0 -> 1 <= n ->
  Zpos mN = n * 2 ^ (- eN) -> Zpos mN < 2 ^ 53 ->
  exists v, floor64 (SFmul 53 1024 r (S754_finite false mN eN)) = Some v /\
            0 <= v < n.
Proof.
  intros Hr HeN Hn HmN HmN53.
  destruct r as [[|]|s| |[|] m e]; try discriminate Hr.
  - exists 0. split; [reflexivity | lia].
  - cbn [unitDraw64b valid_binary] in Hr.
    apply andb_true_iff in Hr. destruct Hr as [Hr Hlt1].
    apply andb_true_iff in Hr. destruct Hr as [Hval He].
    apply Z.ltb_lt in Hlt1. apply Z.ltb_lt in He.
    unfold bounded, canonical_mantissa in Hval.
    apply andb_true_iff in Hval. destruct Hval as [Hcan _].
    apply Z.eqb_eq in Hcan. rewrite fexp64_eq in Hcan.
    pose proof (digits2_pos_bounds m) as [_ Mhi].
    set (dm := Zpos (digits2_pos m)) in *.
    assert (Hm53 : Zpos m < 2 ^ 53).
    { assert (2 ^ dm <= 2 ^ 53) by (apply Z.pow_le_mono_r; lia). lia. }
    cbn [SFmul xorb].
    destruct (binary_round_aux_spec false (m * mN) (e + eN))
      as (V & e2 & Hk0 & Hk1 & He2 & Hres).
    cbv zeta in *. rewrite fexp64_eq in *.
    pose proof (digits2_pos_bounds (m * mN)) as [Dlo Dhi].
    set (d := Zpos (digits2_pos (m * mN))) in *.
    rewrite Pos2Z.inj_mul in *.
    set (E := e + eN) in *.
    set (k := Z.max (d + E - 53) (-1074) - E) in *.
    assert (HpowE : 2 ^ (- E) = 2 ^ (- e) * 2 ^ (- eN)).
    { subst E. rewrite <- Z.pow_add_r by lia. f_equal. lia. }
    assert (Hpe : 0 < 2 ^ (- e)) by (apply Z.pow_pos_nonneg; lia).
    assert (HpeN : 0 < 2 ^ (- eN)) by (apply Z.pow_pos_nonneg; lia).
    (* the exact product is below n by at least mN units *)
    assert (HP : Zpos m * Zpos mN + Zpos mN <= n * 2 ^ (- E)).
    { rewrite HpowE, HmN. nia. }
    assert (Hd106 : d <= 106).
    { subst d. apply digits2_pos_le_of_lt; [lia|].
      rewrite Pos2Z.inj_mul.
      change (2 ^ 106) with (2 ^ 53 * 2 ^ 53). nia. }
    assert (HV : V < n * 2 ^ (- E)).
    { destruct (Z.le_gt_cases k 0) as [Hk | Hk].
      - rewrite (Hk0 Hk). lia.
      - destruct (Hk1 ltac:(lia)) as [_ Vhi].
        assert (Hhalf : 2 ^ k < 2 * Zpos mN).
        { replace k with (Z.succ (k - 1)) by lia.
          rewrite Z.pow_succ_r by lia.
          assert (2 ^ (k - 1) < Zpos mN); [|lia].
          destruct (Z.le_gt_cases (-1074) (d + E - 53)) as [Hc | Hc].
          - (* normal range: k = d - 53 *)
            assert (Ek : k - 1 = d - 54) by lia. rewrite Ek.
            assert (Hs : 2 ^ (d - 1) = 2 ^ (d - 54) * 2 ^ 53)
              by (rewrite <- Z.pow_add_r by lia; f_equal; lia).
            assert (0 < 2 ^ (d - 54)) by (apply Z.pow_pos_nonneg; lia).
            nia.
          - (* subnormal range: k = -1074 - E *)
            assert (2 ^ (k - 1) <= 2 ^ (- 1 - eN))
              by (apply Z.pow_le_mono_r; lia).
            assert (2 ^ (- eN) = 2 * 2 ^ (- 1 - eN)).
            { replace (- eN) with (Z.succ (- 1 - eN)) by lia.
              rewrite Z.pow_succ_r by lia. reflexivity. }
            assert (0 < 2 ^ (- 1 - eN)) by (apply Z.pow_pos_nonneg; lia).
            nia. }
        lia. }
    destruct Hres as [[_ ->] | (m2 & Hm2 & ->)].
    + exists 0. split; [reflexivity | lia].
    + assert (Hle : (e2 <=? 1024 - 53) = true) by (apply Z.leb_le; lia).
      rewrite Hle. cbn [floor64].
      assert (Hp2 : 0 < 2 ^ (e2 - E)) by (apply Z.pow_pos_nonneg; lia).
      destruct (Z.leb_spec 0 e2) as [H0 | H0].
      * exists (Zpos m2 * 2 ^ e2). split; [reflexivity|].
        assert (0 < 2 ^ e2) by (apply Z.pow_pos_nonneg; lia).
        split; [lia|].
        assert (Es : 2 ^ (e2 - E) = 2 ^ e2 * 2 ^ (- E))
          by (rewrite <- Z.pow_add_r by lia; f_equal; lia).
        assert (0 < 2 ^ (- E)) by (apply Z.pow_pos_nonneg; lia).
        apply (Z.mul_lt_mono_pos_r (2 ^ (- E))); [lia|].
        rewrite <- Z.mul_assoc, <- Es, Hm2. exact HV.
      * exists (Zpos m2 / 2 ^ (- e2)). split; [reflexivity|].
        assert (0 < 2 ^ (- e2)) by (apply Z.pow_pos_nonneg; lia).
        split; [apply Z.div_pos; lia|].
        apply Z.div_lt_upper_bound; [lia|].
        assert (Es : 2 ^ (- E) = 2 ^ (- e2) * 2 ^ (e2 - E))
          by (rewrite <- Z.pow_add_r by lia; f_equal; lia).
        apply (Z.mul_lt_mono_pos_r (2 ^ (e2 - E))); [lia|].
        rewrite Hm2. rewrite Es, Z.mul_assoc in HV.
        rewrite (Z.mul_comm (2 ^ (- e2)) n). exact HV.
Qed.

(** ** The colours in binary64 *)

Lemma sf_eqb_eq (a b : spec_float) : sf_eqb a b = true -> a = b.
Proof.
  destruct a as [s|s| |s m e], b as [s'|s'| |s' m' e']; cbn;
    try discriminate; intros H.
  - apply eqb_prop in H. congruence.
  - apply eqb_prop in H. congruence.
  - reflexivity.
  - apply andb_true_iff in H. destruct H as [H He].
    apply andb_true_iff in H. destruct H as [Hs Hm].
    apply eqb_prop in Hs. apply Pos.eqb_eq in Hm. apply Z.eqb_eq in He.
    congruence.
Qed.

Lemma genHue64_range (r : spec_float) :
  unitDraw64b r = true -> exists h, genHue64 r = Some h /\ 0 <= h < 360.
Proof.
  intros Hr. unfold genHue64, Binary64.mul.
  change Binary64.prec with 53. change Binary64.emax with 1024.
  change (Binary64.ofZ 360) with (S754_finite false 6333186975989760 (-44)).
  apply (floor_mul_draw r 6333186975989760 (-44) 360 Hr);
    [lia | lia | reflexivity | reflexivity].
Qed.

Lemma floor_mul_40_range (r : spec_float) :
  unitDraw64b r = true ->
  exists v, floor64 (Binary64.mul r (Binary64.ofZ 40)) = Some v /\
            0 <= v < 40.
Proof.
  intros Hr. unfold Binary64.mul.
  change Binary64.prec with 53. change Binary64.emax with 1024.
  change (Binary64.ofZ 40) with (S754_finite false 5629499534213120 (-47)).
  apply (floor_mul_draw r 5629499534213120 (-47) 40 Hr);
    [lia | lia | reflexivity | reflexivity].
Qed.

Lemma genSaturation64_range (r : spec_float) :
  unitDraw64b r = true ->
  exists s, genSaturation64 r = Some s /\ 60 <= s < 100.
Proof.
  intros Hr. destruct (floor_mul_40_range r Hr) as (v & E & Hv).
  exists (v + 60). unfold genSaturation64. rewrite E. split; [reflexivity|].
  lia.
Qed.

Lemma genLightness64_range (r : spec_float) :
  unitDraw64b r = true ->
  exists l, genLightness64 r = Some l /\ 30 <= l < 70.
Proof.
  intros Hr. destruct (floor_mul_40_range r Hr) as (v & E & Hv).
  exists (v + 30). unfold genLightness64. rewrite E. split; [reflexivity|].
  lia.
Qed.

Lemma genDiffIndex64_range (g : Z) (r : spec_float) :
  5 <= g <= 9 -> unitDraw64b r = true ->
  exists i, genDiffIndex64 g r = Some i /\ 0 <= i < g * g.
Proof.
  intros Hg Hr. unfold genDiffIndex64, Binary64.mul.
  change Binary64.prec with 53. change Binary64.emax with 1024.
  assert (Hc : g = 5 \/ g = 6 \/ g = 7 \/ g = 8 \/ g = 9) by lia.
  destruct Hc as [-> | [-> | [-> | [-> | ->]]]].
  - change (Binary64.ofZ (5 * 5))
      with (S754_finite false 7036874417766400 (-48)).
    apply (floor_mul_draw r 7036874417766400 (-48) 25 Hr);
      [lia | lia | reflexivity | reflexivity].
  - change (Binary64.ofZ (6 * 6))
      with (S754_finite false 5066549580791808 (-47)).
    apply (floor_mul_draw r 5066549580791808 (-47) 36 Hr);
      [lia | lia | reflexivity | reflexivity].
  - change (Binary64.ofZ (7 * 7))
      with (S754_finite false 6896136929411072 (-47)).
    apply (floor_mul_draw r 6896136929411072 (-47) 49 Hr);
      [lia | lia | reflexivity | reflexivity].
  - change (Binary64.ofZ (8 * 8))
      with (S754_finite false 4503599627370496 (-46)).
    apply (floor_mul_draw r 4503599627370496 (-46) 64 Hr);
      [lia | lia | reflexivity | reflexivity].
  - change (Binary64.ofZ (9 * 9))
      with (S754_finite false 5699868278390784 (-46)).
    apply (floor_mul_draw r 5699868278390784 (-46) 81 Hr);
      [lia | lia | reflexivity | reflexivity].
Qed.

(* The delta of a level is one of those of the levels 1 to 64. *)
Lemma baseDelta64_cap (L : Z) :
  Binary64.baseDelta64 L = Binary64.baseDelta64 (Z.min L 64).
Proof.
  destruct (Z.le_gt_cases L 64) as [H | H].
  - rewrite Z.min_l by exact H. reflexivity.
  - rewrite Z.min_r by lia.
    rewrite (baseDelta64_high L) by lia.
    rewrite (baseDelta64_high 64) by lia. reflexivity.
Qed.

Lemma clampInactive64_checked :
  forallb clampInactive64_level (Binary64.levelsUpTo 64) = true.
Proof. vm_compute. reflexivity. Qed.

Lemma In_lightnessValues (l : Z) : 30 <= l < 70 -> In l lightnessValues.
Proof.
  intros Hl. unfold lightnessValues. apply in_map_iff.
  exists (Z.to_nat l). split; [lia|]. apply in_seq. lia.
Qed.

Lemma clampInactive64_all (L l : Z) (isLighter : bool) :
  1 <= L -> 30 <= l < 70 -> clampInactive64 L l isLighter = true.
Proof.
  intros HL Hl.
  assert (E : clampInactive64 L l isLighter =
              clampInactive64 (Z.min L 64) l isLighter).
  { unfold clampInactive64, targetLightness64.
    rewrite (baseDelta64_cap L). reflexivity. }
  rewrite E.
  assert (Hin : In (Z.min L 64) (Binary64.levelsUpTo 64)).
  { apply In_levelsUpTo. change (Z.of_nat 64) with 64. lia. }
  pose proof (proj1 (forallb_forall _ _) clampInactive64_checked
                (Z.min L 64) Hin) as H1.
  unfold clampInactive64_level in H1.
  pose proof (proj1 (forallb_forall _ _) H1 l (In_lightnessValues l Hl))
    as H2.
  apply andb_true_iff in H2. destruct H2 as [Ht Hf].
  destruct isLighter; assumption.
Qed.

(* Lines 37 to 46 produce two colours for every draw. *)
Lemma genColors64_total (L : Z) (d : Draws64) :
  wfDraws64 d = true ->
  exists h s l,
    genColors64 L d =
      Some (mkHsl64 h s (Binary64.ofZ l),
            mkHsl64 h s
              (clampLightness64
                 (targetLightness64 L l (genIsLighter64 (rLighter64 d))))) /\
    0 <= h < 360 /\ 60 <= s < 100 /\ 30 <= l < 70.
Proof.
  intros Hd. unfold wfDraws64 in Hd.
  apply andb_true_iff in Hd. destruct Hd as [Hd _].
  apply andb_true_iff in Hd. destruct Hd as [Hd _].
  apply andb_true_iff in Hd. destruct Hd as [Hd Hl].
  apply andb_true_iff in Hd. destruct Hd as [Hh Hs].
  destruct (genHue64_range _ Hh) as (h & Eh & Rh).
  destruct (genSaturation64_range _ Hs) as (s & Es & Rs).
  destruct (genLightness64_range _ Hl) as (l & El & Rl).
  exists h, s, l. unfold genColors64. rewrite Eh, Es, El.
  repeat split; lia.
Qed.


(* On the levels and grids of a game generateLevel returns a result. *)
Lemma generateLevel64_total (g L : Z) (d : Draws64) :
  5 <= g <= 9 -> 1 <= L <= 500 -> wfDraws64 d = true ->
  exists cs, generateLevel64 g L d = Some (newGridSize L, cs).
Proof.
  intros Hg HL Hd.
  destruct (genColors64_total L d Hd) as (h & s & l & Ec & _).
  assert (Hi : unitDraw64b (rIndex64 d) = true).
  { unfold wfDraws64 in Hd. apply andb_true_iff in Hd. apply Hd. }
  destruct (genDiffIndex64_range g _ Hg Hi) as (i & Ei & _).
  pose proof (proj1 (forallb_forall _ _) gridSize64_ok_500 L
                (In_levelsUpTo 500 L HL)) as Hgs.
  unfold gridSize64_ok in Hgs.
  unfold generateLevel64. rewrite Ec, Ei.
  destruct (Binary64.gridSize64 L) as [gs|]; [|discriminate].
  apply Z.eqb_eq in Hgs. subst gs. eexists. reflexivity.
Qed.

Lemma wfDraws64_max :
  wfDraws64 (mkDraws64 maxDraw64 maxDraw64 maxDraw64 maxDraw64 maxDraw64)
  = true.
Proof. reflexivity. Qed.

(** C3, what the code does: for every level L >= 1 and all draws of [0, 1)
    the base colour has a hue in [0, 360), a saturation in [60, 100) and a
    lightness in [30, 70); the target colour has the same hue and saturation
    and the lightness Math.min(100, Math.max(0, lightness + lDiff)), which is
    within [0, 100].  The largest draw there is, 1 - 2^-53, gives saturation
    99 and lightness 69: a saturation of 100 and a lightness of 70, the upper
    ends of the ranges in the comments on lines 38 and 39 (60-100%, 30-70%),
    are never produced. *)
Theorem genColors64_ranges (L : Z) (d : Draws64) :
  1 <= L ->
  wfDraws64 d = true ->
  (exists (h s l : Z) (tl : spec_float),
     genColors64 L d =
       Some (mkHsl64 h s (Binary64.ofZ l), mkHsl64 h s tl) /\
     0 <= h < 360 /\ 60 <= s < 100 /\ 30 <= l < 70 /\
     tl = clampLightness64
            (targetLightness64 L l (genIsLighter64 (rLighter64 d))) /\
     SFleb (Binary64.ofZ 0) tl = true /\
     SFleb tl (Binary64.ofZ 100) = true) /\
  genSaturation64 maxDraw64 = Some 99 /\
  genLightness64 maxDraw64 = Some 69.
Proof.
  intros HL Hd. split; [|split; reflexivity].
  destruct (genColors64_total L d Hd) as (h & s & l & Ec & Rh & Rs & Rl).
  exists h, s, l. eexists. split; [exact Ec|].
  split; [exact Rh|]. split; [exact Rs|]. split; [exact Rl|].
  split; [reflexivity|].
  pose proof (clampInactive64_all L l (genIsLighter64 (rLighter64 d)) HL Rl)
    as Hc.
  unfold clampInactive64 in Hc. cbv zeta in Hc.
  apply andb_true_iff in Hc. destruct Hc as [Hc H100].
  apply andb_true_iff in Hc. destruct Hc as [Hc H0].
  apply andb_true_iff in Hc. destruct Hc as [Hc _].
  apply andb_true_iff in Hc. destruct Hc as [Hc _].
  apply sf_eqb_eq in Hc. rewrite Hc. split; assumption.
Qed.

Lemma genColors64_ranges_witness :
  exists (h s l : Z) (tl : spec_float),
    genColors64 1 (mkDraws64 maxDraw64 maxDraw64 maxDraw64 maxDraw64
                             maxDraw64) =
      Some (mkHsl64 h s (Binary64.ofZ l), mkHsl64 h s tl) /\
    60 <= s < 100 /\ 30 <= l < 70.
Proof.
  destruct (genColors64_ranges 1
              (mkDraws64 maxDraw64 maxDraw64 maxDraw64 maxDraw64 maxDraw64)
              ltac:(lia) eq_refl)
    as ((h & s & l & tl & E & _ & Rs & Rl & _) & _).
  exists h, s, l, tl. repeat split; try assumption; lia.
Defined.

(* Each saturation of 60..99 and each lightness of 30..69 comes from some
   draw, each hue of 0..359 too. *)
Lemma genSaturation64_onto :
  forallb (fun i =>
             unitDraw64b (midDraw64 i 40) &&
             match genSaturation64 (midDraw64 i 40),
                   genLightness64 (midDraw64 i 40) with
             | Some s, Some l => (s =? i + 60) && (l =? i + 30)
             | _, _ => false
             end)
          (map Z.of_nat (seq 0 40)) = true.
Proof. vm_compute. reflexivity. Qed.

Lemma genHue64_onto :
  forallb (fun i =>
             unitDraw64b (midDraw64 i 360) &&
             match genHue64 (midDraw64 i 360) with
             | Some h => h =? i
             | None => false
             end)
          (map Z.of_nat (seq 0 360)) = true.
Proof. vm_compute. reflexivity. Qed.

(** ** The delta in binary64 *)







(** ** The lightness of the target *)

(** X12: for every level L >= 1 and all draws of [0, 1) the clamp
    Math.min(100, Math.max(0, ...)) returns its argument: the target
    lightness is the double lightness + lDiff itself, and it lies strictly
    between 15 and 84. *)
Theorem target_lightness_unclamped (L : Z) (d : Draws64) :
  1 <= L ->
  wfDraws64 d = true ->
  exists (h s l : Z),
    let x := targetLightness64 L l (genIsLighter64 (rLighter64 d)) in
    genColors64 L d =
      Some (mkHsl64 h s (Binary64.ofZ l), mkHsl64 h s x) /\
    clampLightness64 x = x /\
    SFltb (Binary64.ofZ 15) x = true /\
    SFltb x (Binary64.ofZ 84) = true.
Proof.
  intros HL Hd.
  destruct (genColors64_total L d Hd) as (h & s & l & Ec & _ & _ & Rl).
  exists h, s, l. cbv zeta.
  pose proof (clampInactive64_all L l (genIsLighter64 (rLighter64 d)) HL Rl)
    as Hc.
  unfold clampInactive64 in Hc. cbv zeta in Hc.
  apply andb_true_iff in Hc. destruct Hc as [Hc _].
  apply andb_true_iff in Hc. destruct Hc as [Hc _].
  apply andb_true_iff in Hc. destruct Hc as [Hc H84].
  apply andb_true_iff in Hc. destruct Hc as [Hc H15].
  apply sf_eqb_eq in Hc.
  split; [rewrite Ec, Hc; reflexivity|].
  split; [exact Hc|]. split; assumption.
Qed.

Lemma target_lightness_unclamped_witness :
  exists (h s l : Z),
    genColors64 14 (mkDraws64 maxDraw64 maxDraw64 (S754_zero false)
                              (S754_zero false) maxDraw64) =
      Some (mkHsl64 h s (Binary64.ofZ l),
            mkHsl64 h s (targetLightness64 14 l false)).
Proof.
  destruct (target_lightness_unclamped 14
              (mkDraws64 maxDraw64 maxDraw64 (S754_zero false)
                         (S754_zero false) maxDraw64)
              ltac:(lia) eq_refl) as (h & s & l & E & _).
  exists h, s, l. exact E.
Defined.

(** ** Clicks served by one render *)

Lemma handleBlockClick_current_render (st : Session) (index : Z) (d : Draws) :
  handleBlockClick st index d = handleBlockClickFrom st st index d.
Proof. reflexivity. Qed.

(* A click on the target as the render shows it: score and timeLeft are
   computed from the queued state, the level from the render. *)
Lemma handleBlockClickFrom_target
      (rendered st : Session) (cs : ColorState) (index : Z) (d : Draws) :
  gameState rendered = playing ->
  colorState rendered = Some cs ->
  index = diffIndex cs ->
  let st' := handleBlockClickFrom rendered st index d in
  let gen := generateLevel (gridSize rendered)
                           (level (stats rendered) + 1) d in
  score (stats st') = score (stats st) + 1 /\
  level (stats st') = level (stats rendered) + 1 /\
  timeLeft st' = Z.min 60 (timeLeft st + 1) /\
  gridSize st' = fst gen /\
  colorState st' = Some (snd gen) /\
  gameState st' = gameState st.
Proof.
  intros Hp Hc Hi st' gen. subst st' gen.
  unfold handleBlockClickFrom. rewrite Hp, Hc, Hi, Z.eqb_refl.
  cbn. repeat split.
Qed.

(** C4, at a failing input: on the first level of a game (target tile 0) two
    clicks on tile 0 are served by the same render.  The first gives score
    1, level 2 and 46 seconds; the second gives score 2 and 47 seconds but
    leaves the level at 2, because line 93 takes stats.level from the render
    while line 94 takes prev.score from the queued state. *)
Theorem second_click_of_one_render_keeps_level :
  gameState sessionFirstLevel = playing /\
  option_map diffIndex (colorState sessionFirstLevel) = Some 0 /\
  (score (stats sessionOneClick), level (stats sessionOneClick),
   timeLeft sessionOneClick) = (1, 2, 46) /\
  (score (stats sessionTwoClicksOneRender),
   level (stats sessionTwoClicksOneRender),
   timeLeft sessionTwoClicksOneRender) = (2, 2, 47) /\
  level (stats sessionTwoClicksOneRender) <>
  level (stats sessionOneClick) + 1.
Proof.
  split; [reflexivity|]. split; [reflexivity|].
  split; [reflexivity|]. split; [reflexivity|].
  vm_compute. discriminate.
Qed.

(** C10, at a failing input: after startGame() and two clicks on the target
    served by one render the session has score 2 and level 2, so
    stats.level = stats.score + 1 does not hold; the second click adds 1 to
    the score and nothing to the level. *)
Theorem two_clicks_of_one_render_break_level_score :
  sessionFirstLevel = startGame initialSession 1000 drawsFirstTile /\
  levelTracksScore sessionFirstLevel /\
  levelTracksScore sessionOneClick /\
  score (stats sessionTwoClicksOneRender) = 2 /\
  level (stats sessionTwoClicksOneRender) = 2 /\
  ~ levelTracksScore sessionTwoClicksOneRender.
Proof.
  split; [reflexivity|]. split; [reflexivity|]. split; [reflexivity|].
  split; [reflexivity|]. split; [reflexivity|].
  unfold levelTracksScore. vm_compute. discriminate.
Qed.

(** ** What the render returns *)

(** X4: in every reachable session the render hands AnimatePresence exactly
    one child, the one keyed by the current phase, and it returns the clock
    and score block of the header exactly when that child is the grid. *)
Theorem one_presence_child (st : Session) :
  reachable st ->
  presenceChildren st = [match gameState st with
                         | start => StartPanel
                         | playing => GridPanel
                         | gameover => GameOverPanel
                         end] /\
  (headerStatsElement st = true <-> presenceChildren st = [GridPanel]).
Proof.
  intros Hr.
  assert (E : presenceChildren st = [match gameState st with
                                     | start => StartPanel
                                     | playing => GridPanel
                                     | gameover => GameOverPanel
                                     end]).
  { unfold presenceChildren.
    destruct (gameState st) eqn:Hp; cbn [Phase_eqb andb app];
      try reflexivity.
    destruct (reachable_playing_colorState st Hr Hp) as [cs ->].
    reflexivity. }
  split; [exact E|]. rewrite E. unfold headerStatsElement.
  destruct (gameState st); cbn; split; intros H;
    try reflexivity; discriminate H.
Qed.

Lemma one_presence_child_witness :
  presenceChildren sessionRestarted = [GridPanel].
Proof.
  destruct (one_presence_child sessionRestarted reachable_sessionRestarted)
    as [H _].
  rewrite H. vm_compute. reflexivity.
Defined.
